(** * The tile map of [map/map.py]: occupancy, selection, move and undo

    A shallow embedding of the class [TileMap] restricted to the game
    state it owns: the terrain dictionary, the unit objects the terrains
    refer to, the two selections, the highlighted areas and the path
    stored for undoing a move.  Rendering (sprites, cursor, highlight,
    menus) carries no game state and is left out. *)

From Stdlib Require Import ZArith List Bool Lia.
From stdpp Require Import gmap list strings.

Local Open Scope Z_scope.

(** ** Data *)

(** A coordinate is the Python tuple [(x, y)]. *)
Abbreviation Coordinate := (Z * Z)%type.

(** Python object references to [unit.Unit] instances. *)
Abbreviation uref := nat.

(** The attributes of [unit.Unit] that [map.py] reads or writes:
    [coord], [played], [movement], the pair returned by
    [get_weapon_range()], the list returned by [get_allowed_terrains()]
    and the team the unit belongs to. *)
Record Unit := mkUnit {
  coord : Coordinate;
  played : bool;
  movement : Z;
  weapon_range : Z * Z;
  allowed_terrains : list string;
  team : nat
}.

(** [pathfinder.Terrain]: the attribute [allowed] is iterated and
    compared with ['any'] and ['none']; the attribute [unit] (here
    [terrain_unit]) is [None] or a reference to the occupying unit. *)
Record Terrain := mkTerrain {
  allowed : list string;
  terrain_unit : option uref
}.

(** The fields of [TileMap] set up by [__init__]. [units] is the store
    of unit objects: terrains and callers share references into it, so
    that [unit.move] is seen through every alias. [arrow] is the path
    held by [self.arrow]. *)
Record TileMap := mkTileMap {
  w : Z;
  h : Z;
  terrains : gmap Coordinate Terrain;
  units : gmap uref Unit;
  active_team : nat;
  prev_sel : option Coordinate;
  curr_sel : option Coordinate;
  move_area : list Coordinate;
  attack_area : list Coordinate;
  arrow : list Coordinate;
  return_path : option (list Coordinate)
}.

Definition with_terrains (t : gmap Coordinate Terrain) (s : TileMap) : TileMap :=
  mkTileMap (w s) (h s) t (units s) (active_team s) (prev_sel s) (curr_sel s)
            (move_area s) (attack_area s) (arrow s) (return_path s).

Definition with_units (us : gmap uref Unit) (s : TileMap) : TileMap :=
  mkTileMap (w s) (h s) (terrains s) us (active_team s) (prev_sel s) (curr_sel s)
            (move_area s) (attack_area s) (arrow s) (return_path s).

Definition with_prev_sel (c : option Coordinate) (s : TileMap) : TileMap :=
  mkTileMap (w s) (h s) (terrains s) (units s) (active_team s) c (curr_sel s)
            (move_area s) (attack_area s) (arrow s) (return_path s).

Definition with_curr_sel (c : option Coordinate) (s : TileMap) : TileMap :=
  mkTileMap (w s) (h s) (terrains s) (units s) (active_team s) (prev_sel s) c
            (move_area s) (attack_area s) (arrow s) (return_path s).

Definition with_move_area (a : list Coordinate) (s : TileMap) : TileMap :=
  mkTileMap (w s) (h s) (terrains s) (units s) (active_team s) (prev_sel s) (curr_sel s)
            a (attack_area s) (arrow s) (return_path s).

Definition with_attack_area (a : list Coordinate) (s : TileMap) : TileMap :=
  mkTileMap (w s) (h s) (terrains s) (units s) (active_team s) (prev_sel s) (curr_sel s)
            (move_area s) a (arrow s) (return_path s).

Definition with_arrow (a : list Coordinate) (s : TileMap) : TileMap :=
  mkTileMap (w s) (h s) (terrains s) (units s) (active_team s) (prev_sel s) (curr_sel s)
            (move_area s) (attack_area s) a (return_path s).

Definition with_return_path (p : option (list Coordinate)) (s : TileMap) : TileMap :=
  mkTileMap (w s) (h s) (terrains s) (units s) (active_team s) (prev_sel s) (curr_sel s)
            (move_area s) (attack_area s) (arrow s) p.

(** ** Exceptions and the state monad of the methods *)

Inductive value_error :=
| OccupiedDestination (c : Coordinate)   (* "Destination %s is already occupied by another unit" *)
| InvalidCoordinates.                    (* "Invalid coordinates" *)

Inductive exn :=
| KeyError
| ValueError (v : value_error)
| IndexError
| AttributeError
| TypeError
| OverflowError.

#[global] Instance value_error_eq_dec : EqDecision value_error.
Proof. solve_decision. Defined.

#[global] Instance exn_eq_dec : EqDecision exn.
Proof. solve_decision. Defined.

Inductive result (A : Type) :=
| Ok (a : A)
| Raise (e : exn).
Arguments Ok {A} a.
Arguments Raise {A} e.

(** A method runs on the map and leaves a map behind, also when it
    raises: what was assigned before the exception stays assigned. *)
Definition M (A : Type) : Type := TileMap -> result A * TileMap.

Definition ret {A} (a : A) : M A := fun s => (Ok a, s).
Definition raise {A} (e : exn) : M A := fun s => (Raise e, s).
Definition bind {A B} (m : M A) (k : A -> M B) : M B := fun s =>
  match m s with
  | (Ok a, s') => k a s'
  | (Raise e, s') => (Raise e, s')
  end.
Definition get : M TileMap := fun s => (Ok s, s).
Definition modify (f : TileMap -> TileMap) : M unit := fun s => (Ok tt, f s).

(** [try: m except e: handler]. *)
Definition try_except {A} (m : M A) (e : exn) (handler : M A) : M A := fun s =>
  match m s with
  | (Raise e', s') => if decide (e' = e) then handler s' else (Raise e', s')
  | r => r
  end.

(** The methods are written with stdpp's monad notations:
    [x ← m; k] and [m ;; k]. *)
#[global] Instance M_ret : MRet M := @ret.
#[global] Instance M_bind : MBind M := fun A B k m => bind m k.

Fixpoint for_each {A} (l : list A) (body : A -> M unit) : M unit :=
  match l with
  | [] => ret tt
  | a :: l' => body a ;; for_each l' body
  end.

(** ** Helpers of other modules *)

(** Python's [range(lo, hi)]: empty when [hi <= lo]. *)
Definition range (lo hi : Z) : list Z := seqZ lo (hi - lo).

(** Modelled from the spec: [utils.distance] ([utils.py] is not among
    the sources); the spec fixes distance as the Manhattan distance, the
    sum of the absolute coordinate differences. *)
Definition distance (a b : Coordinate) : Z :=
  Z.abs (a.1 - b.1) + Z.abs (a.2 - b.2).

(** Reading an attribute through a reference. A reference outside the
    store has no Python counterpart; the model stops with [TypeError]
    there, and every theorem below assumes the references it uses are
    live. *)
Definition deref (u : uref) : M Unit := fun s =>
  match units s !! u with
  | Some U => (Ok U, s)
  | None => (Raise TypeError, s)
  end.

(** Modelled from the spec: [Unit.move] ([unit.py] is not among the
    sources) updates the unit's coordinate. *)
Definition Unit_move (u : uref) (c : Coordinate) : M unit :=
  U ← deref u;
  modify (fun s =>
    with_units (<[u := mkUnit c (played U) (movement U) (weapon_range U)
                              (allowed_terrains U) (team U)]> (units s)) s).

(** ** Terrain dictionary *)

(** [self.terrains[k]] for a key that may be [None] ([curr_sel] and
    [prev_sel] start as [None]): a missing key raises [KeyError]. *)
Definition terrain_at (k : option Coordinate) : M Terrain := fun s =>
  match k ≫= (fun c => terrains s !! c) with
  | Some t => (Ok t, s)
  | None => (Raise KeyError, s)
  end.

(** [TileMap.__getitem__] *)
Definition getitem (coord : Coordinate) : M Terrain := terrain_at (Some coord).

(** [TileMap.get_unit] *)
Definition get_unit (coord : Coordinate) : M (option uref) :=
  t ← terrain_at (Some coord); ret (terrain_unit t).

(** The properties [curr_unit] and [prev_unit]: [KeyError] becomes [None]. *)
Definition curr_unit : M (option uref) :=
  s ← get;
  try_except (t ← terrain_at (curr_sel s); ret (terrain_unit t)) KeyError (ret None).

Definition prev_unit : M (option uref) :=
  s ← get;
  try_except (t ← terrain_at (prev_sel s); ret (terrain_unit t)) KeyError (ret None).

(** [self.terrains[k].unit = u] *)
Definition set_terrain_unit (k : option Coordinate) (u : option uref) : M unit :=
  t ← terrain_at k;
  match k with
  | Some c => modify (fun s => with_terrains (<[c := mkTerrain (allowed t) u]> (terrains s)) s)
  | None => raise KeyError
  end.

(** [TileMap.check_coord] *)
Definition check_coord (s : TileMap) (coord : Coordinate) : bool :=
  let '(x, y) := coord in
  (0 <=? x) && (x <? w s) && ((0 <=? y) && (y <? h s)).

(** [TileMap.neighbors] *)
Definition neighbors (coord : Coordinate) : M (list Coordinate) :=
  s ← get;
  if negb (check_coord s coord) then raise (ValueError InvalidCoordinates)
  else
    let '(x, y) := coord in
    let n := [(x + 1, y); (x - 1, y); (x, y + 1); (x, y - 1)] in
    ret (List.filter (check_coord s) n).

(** [TileMap.area]: the list comprehension, [i] outermost. *)
Definition area (s : TileMap) (center : Coordinate) (radius hole : Z) : list Coordinate :=
  let '(x, y) := center in
  flat_map (fun i =>
    flat_map (fun j =>
      if check_coord s (i, j)
         && ((hole <=? distance (x, y) (i, j)) && (distance (x, y) (i, j) <=? radius))
      then [(i, j)] else [])
      (range (y - radius) (y + radius + 1)))
    (range (x - radius) (x + radius + 1)).

(** The loop of [is_obstacle] over [terrain.allowed]. *)
Fixpoint scan_allowed (terrain_allowed unit_allowed : list string) : bool :=
  match terrain_allowed with
  | [] => true
  | a :: rest =>
      if decide (a = "any"%string) then false
      else if decide (a = "none"%string) then true
      else if decide (a ∈ unit_allowed) then false
      else scan_allowed rest unit_allowed
  end.

(** The body of the innermost loop of [__set_attack_area]: the loops
    read [self.move_area] and append to [self.attack_area], here the
    two lists [mv] and [acc]. *)
Definition set_attack_area_cell (mv : list Coordinate) (center : Coordinate)
    (min_range max_range : Z) (acc : list Coordinate) (ij : Coordinate) : list Coordinate :=
  if negb (bool_decide (ij ∈ mv)) && negb (bool_decide (ij ∈ acc)) then
    if (min_range <=? distance center ij) && (distance center ij <=? max_range)
    then acc ++ [ij]
    else acc
  else acc.

(** The two nested [for] loops of [__set_attack_area]. *)
Definition attack_fill (mv : list Coordinate) (center : Coordinate)
    (min_range max_range : Z) (acc : list Coordinate) : list Coordinate :=
  let '(x, y) := center in
  fold_left (fun acc i =>
    fold_left (fun acc j => set_attack_area_cell mv (x, y) min_range max_range acc (i, j))
              (range (y - max_range) (y + max_range + 1)) acc)
    (range (x - max_range) (x + max_range + 1)) acc.

(** [TileMap.__set_attack_area] *)
Definition set_attack_area (coord : Coordinate) (min_range max_range : Z) : M unit :=
  modify (fun s =>
    with_attack_area (attack_fill (move_area s) coord min_range max_range (attack_area s)) s).

(** What the loop of [move_attack_area] leaves in [attack_area],
    starting from the empty list. *)
Definition combined_area (mv : list Coordinate) (min_range max_range : Z) : list Coordinate :=
  fold_left (fun acc c => attack_fill mv c min_range max_range acc) mv [].

(** [TileMap.reset_selection]; [update_highlight] only redraws. *)
Definition reset_selection : M unit :=
  modify (with_curr_sel None) ;;
  modify (with_prev_sel None) ;;
  modify (with_move_area []) ;;
  modify (with_attack_area []) ;;
  modify (with_arrow []).

(** [TileMap.action_menu] adds a menu widget and touches no game state. *)
Definition action_menu : M unit := ret tt.

(** ** Methods that call the collaborators *)

Section Collaborators.

(** [Pathfinder.shortest_path(source, target, max_distance)] and
    [Pathfinder.area(source, max_distance)] of [map/pathfinder.py];
    the pathfinder holds the map and reads it. *)
Variable shortest_path : TileMap -> Coordinate -> Coordinate -> Z -> list Coordinate.
Variable path_area : TileMap -> Coordinate -> Z -> list Coordinate.

(** The relation [UnitsManager.are_enemies] answers for two units, and
    [active_team.is_mine(unit)] for the team whose turn it is. *)
Variable enemies : Unit -> Unit -> bool.
Variable is_mine : nat -> Unit -> bool.

(** Modelled from the spec: [UnitsManager.are_enemies] ([unit.py] is
    not among the sources); it reads attributes of both arguments, so
    that [None] for either raises [AttributeError], the fallback
    [is_obstacle] relies on. *)
Definition are_enemies (u1 u2 : option uref) : M bool :=
  match u1, u2 with
  | Some a, Some b => A ← deref a; B ← deref b; ret (enemies A B)
  | _, _ => raise AttributeError
  end.

(** [TileMap.is_obstacle(coord, unit=None)] *)
Definition is_obstacle (coord : Coordinate) (u : option uref) : M bool :=
  terrain ← getitem coord;
  try_except (are_enemies u (terrain_unit terrain)) AttributeError
    (match u with
     | None => ret false
     | Some r =>
         U ← deref r;
         ret (scan_allowed (allowed terrain) (allowed_terrains U))
     end).

(** [TileMap.move_animation(unit, target, path=None)]. An empty or
    absent [path] is replaced by the shortest path. On its first tick
    the event loop calls [sprite.move_animation(delta, px_path[0])] on
    the sprite found for [unit]: an [AttributeError] when there is no
    sprite, an [IndexError] on an empty path. The sprite itself is not
    part of the state. [target] is [None] only where [move_undo]
    passes [prev_sel] along with a non-empty path. *)
Definition move_animation (u : option uref) (target : option Coordinate)
    (path : option (list Coordinate)) : M (list Coordinate) :=
  p ← match path with
      | Some (c :: p') => ret (c :: p')
      | _ =>
          match u, target with
          | Some r, Some t =>
              U ← deref r; s ← get;
              ret (shortest_path s (coord U) t (movement U))
          | None, _ => raise AttributeError
          | _, None => raise TypeError
          end
      end;
  match u, p with
  | None, _ => raise AttributeError
  | _, [] => raise IndexError
  | Some _, _ => ret p
  end.

(** [TileMap.move(unit, new_coord)] *)
Definition move (u : uref) (new_coord : Coordinate) : M unit :=
  U ← deref u;
  if decide (coord U ≠ new_coord) then
    occupant ← get_unit new_coord;
    match occupant with
    | Some _ => raise (ValueError (OccupiedDestination new_coord))
    | None =>
        path ← move_animation (Some u) (Some new_coord) None;
        modify (with_return_path (Some path)) ;;
        (* self.return_path.pop() *)
        match path with
        | [] => raise IndexError
        | _ => modify (with_return_path (Some (removelast path)))
        end ;;
        (* self.return_path.reverse(); self.return_path.append(unit.coord) *)
        modify (with_return_path (Some (rev (removelast path)))) ;;
        modify (with_return_path (Some (rev (removelast path) ++ [coord U]))) ;;
        set_terrain_unit (Some (coord U)) None ;;
        set_terrain_unit (Some new_coord) (Some u) ;;
        Unit_move u new_coord
    end
  else ret tt.

(** [TileMap.move_undo()] *)
Definition move_undo : M unit :=
  s ← get;
  (if decide (curr_sel s ≠ prev_sel s) then
     u ← curr_unit;
     match return_path s with
     | Some (c :: p) =>
         move_animation u (prev_sel s) (Some (c :: p)) ;;
         modify (with_return_path None)
     | _ => ret tt
     end ;;
     set_terrain_unit (prev_sel s) u ;;
     set_terrain_unit (curr_sel s) None ;;
     match u, prev_sel s with
     | Some r, Some c => Unit_move r c
     | None, _ => raise AttributeError
     | _, None => raise TypeError
     end
   else ret tt) ;;
  reset_selection.

(** [TileMap.update_move_area()] *)
Definition update_move_area : M unit :=
  s ← get;
  u ← curr_unit;
  match u, curr_sel s with
  | Some r, Some c =>
      U ← deref r;
      modify (with_move_area (path_area s c (movement U)))
  | _, _ => raise AttributeError
  end.

(** [TileMap.move_attack_area()] *)
Definition move_attack_area : M unit :=
  u ← curr_unit;
  match u with
  | Some r =>
      U ← deref r;
      let '(min_range, max_range) := weapon_range U in
      modify (with_attack_area []) ;;
      s ← get;
      for_each (move_area s) (fun c => set_attack_area c min_range max_range)
  | None => raise AttributeError
  end.

(** [TileMap.still_attack_area()] *)
Definition still_attack_area : M unit :=
  s ← get;
  u ← curr_unit;
  match u, curr_sel s with
  | Some r, Some c =>
      U ← deref r;
      let '(min_range, max_range) := weapon_range U in
      modify (with_attack_area []) ;;
      modify (with_move_area []) ;;
      set_attack_area c min_range max_range
  | _, _ => raise AttributeError
  end.

(** [TileMap.can_selection_move()] *)
Definition can_selection_move : M bool :=
  s ← get;
  pu ← prev_unit;
  match pu with
  | None => ret false
  | Some r =>
      U ← deref r;
      ret (negb (played U) && is_mine (active_team s) U
           && match curr_sel s with
              | Some c => bool_decide (c ∈ move_area s)
              | None => false
              end)
  end.

(** [TileMap.select(coord)] *)
Definition select (coord : Coordinate) : M unit :=
  s0 ← get;
  modify (with_prev_sel (curr_sel s0)) ;;
  modify (with_curr_sel (Some coord)) ;;
  modify (with_arrow []) ;;
  match curr_sel s0 with
  | None =>
      (* Nothing has been previously selected *)
      u ← get_unit coord;
      match u with
      | None => modify (with_move_area []) ;; modify (with_attack_area [])
      | Some r =>
          U ← deref r;
          if played U then modify (with_move_area []) ;; modify (with_attack_area [])
          else update_move_area ;; move_attack_area
      end
  | Some prev =>
      (* Something has been previously selected *)
      pu ← prev_unit;
      cu ← curr_unit;
      match pu, cu with
      | Some p, Some _ =>
          P ← deref p;
          if bool_decide (prev = coord) && negb (played P) && is_mine (active_team s0) P
          then action_menu
          else update_move_area ;; move_attack_area
      | _, _ =>
          can ← can_selection_move;
          if (can : bool) then
            match pu with
            | Some p => move p coord ;; action_menu
            | None => raise AttributeError
            end
          else
            reset_selection ;;
            modify (with_curr_sel (Some coord)) ;;
            cu' ← curr_unit;
            match cu' with
            | Some r =>
                U ← deref r;
                if played U then ret tt
                else update_move_area ;; move_attack_area
            | None => ret tt
            end
      end
  end.

End Collaborators.

(** ** Building the terrain dictionary in [__init__] *)

(** A tile as far as the map looks at it: the traversal tags
    [Terrain] takes from it. *)
Record Tile := mkTile { tile_allowed : list string }.

(** A cell of a [tmx.Layer]: its grid position and its tile, [None]
    where the layer has nothing at that position. *)
Record Cell := mkCell {
  cell_x : Z;
  cell_y : Z;
  cell_tile : option Tile
}.

(** Modelled from the spec: the constructor [Terrain(tile, unit)]
    ([map/pathfinder.py] is not among the sources) stores the occupant
    and the allowed traversal of the tile. *)
Definition new_Terrain (tile : Tile) (u : option uref) : Terrain :=
  mkTerrain (tile_allowed tile) u.

(** Modelled from the spec: [UnitsManager.get_units(coord=coord)]
    ([unit.py] is not among the sources), the units of the roster
    standing on [coord]. *)
Definition get_units (roster : list (uref * Unit)) (c : Coordinate) : list uref :=
  map fst (List.filter (fun p => bool_decide (coord (snd p) = c)) roster).

(** The last loop of [__init__] over the tile layers, topmost first:
    a coordinate gets the terrain of the first layer that has a tile
    there. *)
Definition init_terrains (layers : list (list Cell)) (roster : list (uref * Unit))
    : gmap Coordinate Terrain :=
  fold_left (fun terrains layer =>
    fold_left (fun terrains cell =>
      let c := (cell_x cell, cell_y cell) in
      let _unit := head (get_units roster c) in
      match terrains !! c, cell_tile cell with
      | None, Some tile => <[c := new_Terrain tile _unit]> terrains
      | _, _ => terrains
      end) layer terrains)
    (rev layers) ∅.

(** The map as [__init__] leaves it. *)
Definition init (width height : Z) (layers : list (list Cell))
    (roster : list (uref * Unit)) (active : nat) : TileMap :=
  mkTileMap width height (init_terrains layers roster) (list_to_map roster)
            active None None [] [] [] None.

(** ** A pathfinder and a roster to run the map on *)

(** The roster used in the examples: units of different teams are
    enemies, and a unit is mine when it is of the active team. *)
Definition team_enemies (a b : Unit) : bool := negb (Nat.eqb (team a) (team b)).
Definition team_is_mine (active : nat) (u : Unit) : bool := Nat.eqb (team u) active.

(** The neighbours of [c] that do not block [mover]; [goal], when given,
    is let through whatever stands on it. *)
Definition open_neighbors (s : TileMap) (mover : option uref) (goal : option Coordinate)
    (c : Coordinate) : list Coordinate :=
  match neighbors c s with
  | (Ok ns, _) =>
      List.filter (fun n =>
        bool_decide (goal = Some n)
        || match is_obstacle team_enemies n mover s with
           | (Ok false, _) => true
           | _ => false
           end) ns
  | _ => []
  end.

(** Modelled from the spec: [Pathfinder.area] ([map/pathfinder.py] is
    not among the sources), the coordinates reachable from the origin
    within the budget at one movement point per step, the origin
    included, found by expanding the frontier once per point. *)
Fixpoint reachable (s : TileMap) (mover : option uref) (budget : nat)
    (origin : Coordinate) : list Coordinate :=
  match budget with
  | O => [origin]
  | S b =>
      let inner := reachable s mover b origin in
      fold_left (fun acc c =>
        fold_left (fun acc n => if bool_decide (n ∈ acc) then acc else acc ++ [n])
                  (open_neighbors s mover None c) acc)
        inner inner
  end.

Definition occupant_of (s : TileMap) (c : Coordinate) : option uref :=
  terrains s !! c ≫= terrain_unit.

Definition spec_area (s : TileMap) (origin : Coordinate) (budget : Z) : list Coordinate :=
  reachable s (occupant_of s origin) (Z.to_nat budget) origin.

(** One breadth-first layer: every path of the frontier (kept reversed,
    current cell first) is extended by its unvisited open neighbours, in
    the fixed order of [neighbors]. *)
Definition bfs_layer (s : TileMap) (mover : option uref) (goal : Coordinate)
    (frontier : list (list Coordinate)) (visited : list Coordinate)
    : list (list Coordinate) * list Coordinate :=
  fold_left (fun '(next, vis) p =>
    match p with
    | [] => (next, vis)
    | c :: _ =>
        fold_left (fun '(next, vis) n =>
          if bool_decide (n ∈ vis) then (next, vis)
          else (next ++ [n :: p], vis ++ [n]))
          (open_neighbors s mover (Some goal) c) (next, vis)
    end) frontier ([], visited).

Fixpoint bfs (s : TileMap) (mover : option uref) (goal : Coordinate) (budget : nat)
    (frontier : list (list Coordinate)) (visited : list Coordinate) : list Coordinate :=
  match List.find (fun p => bool_decide (head p = Some goal)) frontier with
  | Some p => rev p
  | None =>
      match budget with
      | O => []
      | S b =>
          let '(next, vis) := bfs_layer s mover goal frontier visited in
          bfs s mover goal b next vis
      end
  end.

(** Modelled from the spec: [Pathfinder.shortest_path]
    ([map/pathfinder.py] is not among the sources), a path of minimal
    length from start to goal over cells that do not block the mover,
    the occupant of the goal ignored, within the budget; the empty list
    when there is none. *)
Definition spec_shortest_path (s : TileMap) (start goal : Coordinate) (budget : Z)
    : list Coordinate :=
  bfs s (occupant_of s start) goal (Z.to_nat budget) [[start]] [start].

(** A 5 by 5 map of open ground for the examples. *)
Definition open_layer (width height : Z) : list Cell :=
  flat_map (fun y => map (fun x => mkCell x y (Some (mkTile ["any"%string])))
                         (range 0 width))
           (range 0 height).

Definition soldier (c : Coordinate) (t : nat) : Unit :=
  mkUnit c false 2 (1, 1) ["any"%string] t.

Definition demo_roster : list (uref * Unit) :=
  [(1%nat, soldier (2, 2) 1%nat); (2%nat, soldier (0, 0) 2%nat)].

Definition demo : TileMap := init 5 5 [open_layer 5 5] demo_roster 1%nat.

(** The map after [move] has carried [u] from its cell, whose terrain
    is [ta], to [d], whose terrain is [td], along [p]. *)
Definition moved (u : uref) (U : Unit) (d : Coordinate) (ta td : Terrain)
    (p : list Coordinate) (s : TileMap) : TileMap :=
  with_units (<[u := mkUnit d (played U) (movement U) (weapon_range U)
                            (allowed_terrains U) (team U)]> (units s))
    (with_terrains (<[d := mkTerrain (allowed td) (Some u)]>
                      (<[coord U := mkTerrain (allowed ta) None]> (terrains s)))
       (with_return_path (Some (rev (removelast p) ++ [coord U])) s)).

(** The demo map once the soldier of the active team has been picked,
    and once the cell (3, 3) of its move area has been picked next. *)
Definition demo_selected : TileMap :=
  snd (select spec_shortest_path spec_area team_is_mine (2, 2) demo).

(** A single cell nobody may cross, and a map whose only position
    carries no tile. *)
Definition wall : TileMap :=
  init 1 1 [[mkCell 0 0 (Some (mkTile ["none"%string]))]] [] 1%nat.

Definition untiled : TileMap := init 1 1 [[mkCell 0 0 None]] [] 1%nat.

(** The demo ground with two soldiers of different teams on adjacent
    cells. *)
Definition skirmish : TileMap :=
  init 5 5 [open_layer 5 5]
       [(1%nat, soldier (2, 2) 1%nat); (2%nat, soldier (2, 3) 2%nat)] 1%nat.

(** The map once [select] has shifted the selections and cleared the
    arrow, before it looks at what was picked. *)
Definition picked (c : Coordinate) (s : TileMap) : TileMap :=
  with_arrow [] (with_curr_sel (Some c) (with_prev_sel (curr_sel s) s)).

(** ** Preparing an attack; mouse buttons *)

Section Attack.

Variable enemies : Unit -> Unit -> bool.

(** The loop of [nearby_enemies] over the cells of the area: a cell
    whose occupant is an enemy of the unit [r] contributes this
    occupant. A unit object counts as true in [if c_unit and ...]. *)
Fixpoint nearby_scan (r : uref) (cells : list Coordinate) : M (list uref) :=
  match cells with
  | [] => ret []
  | c :: cells' =>
      c_unit ← get_unit c;
      found ← match c_unit with
              | Some o =>
                  e ← are_enemies enemies (Some o) (Some r);
                  ret (if (e : bool) then [o] else [])
              | None => ret []
              end;
      rest ← nearby_scan r cells';
      ret (found ++ rest)
  end.

(** [TileMap.nearby_enemies(unit=None)] *)
Definition nearby_enemies (u : option uref) : M (list uref) :=
  u' ← match u with
       | Some r => ret (Some r)
       | None => curr_unit
       end;
  match u' with
  | Some r =>
      U ← deref r;
      let '(min_range, max_range) := weapon_range U in
      s ← get;
      nearby_scan r (area s (coord U) max_range min_range)
  | None => raise AttributeError
  end.

(** The comprehension [[u.coord for u in ...]]. *)
Fixpoint coords_of (us : list uref) : M (list Coordinate) :=
  match us with
  | [] => ret []
  | o :: us' => O ← deref o; rest ← coords_of us'; ret (coord O :: rest)
  end.

(** [TileMap.prepare_attack(unit=None)]; the setter of [curr_unit]
    stores the unit's coordinate in [curr_sel]. *)
Definition prepare_attack (u : option uref) : M unit :=
  match u with
  | Some r => U ← deref r; modify (with_curr_sel (Some (coord U)))
  | None => ret tt
  end ;;
  modify (with_move_area []) ;;
  es ← nearby_enemies u;
  cs ← coords_of es;
  modify (with_attack_area cs).

End Attack.

(** [TileMap.kill_unit(_unit)]: the occupant of the unit's cell is
    cleared. [units_manager.kill_unit] takes the unit off its team and
    the sprite is removed from the sprite layer; neither the teams nor
    the sprites are part of this state. *)
Definition kill_unit (u : uref) : M unit :=
  U ← deref u;
  set_terrain_unit (Some (coord U)) None.

(** A [MOUSEBUTTONDOWN] event as [handle_mousebuttondown] reads it: the
    button, whether the position is inside the map's rectangle, and the
    cell [tilemap.index_at] finds under it. *)
Record MouseButtonDown := mkMouseButtonDown {
  button : Z;
  inside : bool;
  index_at : option Coordinate
}.

Section Mouse.

Variable shortest_path : TileMap -> Coordinate -> Coordinate -> Z -> list Coordinate.
Variable path_area : TileMap -> Coordinate -> Z -> list Coordinate.
Variable is_mine : nat -> Unit -> bool.

(** [TileMap.handle_mousebuttondown(event)]; the attribute [zoom] is
    passed in and the new value returned. *)
Definition handle_mousebuttondown (event : MouseButtonDown) (zoom : Z) : M Z :=
  if decide (button event = 1) then
    (if inside event then
       match index_at event with
       | Some c => select shortest_path path_area is_mine c
       | None => ret tt
       end
     else ret tt) ;;
    ret zoom
  else if decide (button event = 3) then reset_selection ;; ret zoom
  else if decide (button event = 4) then ret (if zoom <? 5 then zoom + 1 else zoom)
  else if decide (button event = 5) then ret (if 1 <? zoom then zoom - 1 else zoom)
  else ret zoom.

End Mouse.

(** What the loop of [__init__] does with one cell of a layer: the
    body of the inner fold of [init_terrains]. *)
Definition init_cell (roster : list (uref * Unit)) (m : gmap Coordinate Terrain)
    (cell : Cell) : gmap Coordinate Terrain :=
  match m !! (cell_x cell, cell_y cell), cell_tile cell with
  | None, Some tile =>
      <[(cell_x cell, cell_y cell) :=
          new_Terrain tile (head (get_units roster (cell_x cell, cell_y cell)))]> m
  | _, _ => m
  end.

(** ** Invariants of the board *)

(** Whoever a cell names as its occupant is a unit of the store whose
    coordinate is that cell. *)
Definition consistent (s : TileMap) : Prop :=
  forall c t r, terrains s !! c = Some t -> terrain_unit t = Some r ->
    exists U, units s !! r = Some U /\ coord U = c.

(** Every unit of the store stands on the cell of its coordinate. *)
Definition placed (s : TileMap) : Prop :=
  forall r U, units s !! r = Some U ->
    exists t, terrains s !! coord U = Some t /\ terrain_unit t = Some r.

(** Every coordinate inside the bounds has a cell. *)
Definition tiled (s : TileMap) : Prop :=
  forall c, check_coord s c = true -> is_Some (terrains s !! c).

(** [s'] has the ground of [s]: the same extents, the same active team,
    the same cells with the same allowed traversal. *)
Definition same_ground (s s' : TileMap) : Prop :=
  w s' = w s /\ h s' = h s /\ active_team s' = active_team s /\
  forall c, allowed <$> (terrains s' !! c) = allowed <$> (terrains s !! c).

(** [s'] has the board of [s]: the same extents and active team, the
    same terrains with the same occupants, the same units. *)
Definition same_board (s s' : TileMap) : Prop :=
  w s' = w s /\ h s' = h s /\ active_team s' = active_team s /\
  terrains s' = terrains s /\ units s' = units s.

(** [s'] differs from [s] in the move and attack areas at most. *)
Definition only_areas (s s' : TileMap) : Prop :=
  same_board s s' /\ prev_sel s' = prev_sel s /\ curr_sel s' = curr_sel s /\
  arrow s' = arrow s /\ return_path s' = return_path s.

(** The occupant [self.terrains[k].unit] when there is such a cell. *)
Definition unit_at (s : TileMap) (k : option Coordinate) : option uref :=
  match k with
  | Some c =>
      match terrains s !! c with
      | Some t => terrain_unit t
      | None => None
      end
  | None => None
  end.

(** The map [reset_selection] leaves. *)
Definition unselected (s : TileMap) : TileMap :=
  mkTileMap (w s) (h s) (terrains s) (units s) (active_team s)
            None None [] [] [] (return_path s).

(** Whatever its outcome, [m] leaves a map related by [R] to the one it
    ran on. *)
Definition preserves {A} (R : TileMap -> TileMap -> Prop) (m : M A) : Prop :=
  forall s, R s (m s).2.

(** ** [room.Room]: the registry of callbacks *)

(** [list.remove(x)] on a list that contains [x]: the first occurrence
    goes. *)
Fixpoint list_remove (x : nat) (l : list nat) : list nat :=
  match l with
  | [] => []
  | y :: l' => if decide (y = x) then l' else y :: list_remove x l'
  end.

(** No list of the registry holds a callback twice. *)
Definition tidy (callbacks : gmap Z (list nat)) : Prop :=
  forall e l, callbacks !! e = Some l -> NoDup l.

(** The dictionary [self.callbacks] that
    [Room.register(event_type, callback)] leaves, whether its last
    line, the log call, returns or raises; callbacks are function
    objects, compared by identity. *)
Definition Room_register (event_type : Z) (callback : nat)
    (callbacks : gmap Z (list nat)) : gmap Z (list nat) :=
  match callbacks !! event_type with
  | Some l =>
      if decide (callback ∈ l) then callbacks
      else <[event_type := l ++ [callback]]> callbacks
  | None => <[event_type := [callback]]> callbacks
  end.

(** The event types [pygame.event.event_name] accepts: it converts its
    argument to a C [int], of 32 bits. *)
Definition fits_c_int (event_type : Z) : bool :=
  (-2147483648 <=? event_type) && (event_type <=? 2147483647).

(** The last line of [register] and of [unregister],
    [self.logger.debug(..., pygame.event.event_name(event_type), callback)]:
    the arguments are evaluated before the logger is entered, and
    [event_name] (of the pygame library) raises [OverflowError] on an
    integer that does not fit a C [int]. The text goes to the log and is
    no part of the state. *)
Definition log_event_name (event_type : Z) : result unit :=
  if fits_c_int event_type then Ok tt else Raise OverflowError.

(** A call of [Room.register]: the outcome and the dictionary it
    leaves. The dictionary is updated before the log call, so it is
    [Room_register]'s also when the call raises. *)
Definition Room_register_call (event_type : Z) (callback : nat)
    (callbacks : gmap Z (list nat)) : result unit * gmap Z (list nat) :=
  (log_event_name event_type, Room_register event_type callback callbacks).

(** [Room.unregister(event_type, callback=None)]: the outcome and the
    dictionary it leaves. Both branches index
    [self.callbacks[event_type]], a [KeyError] for an event type that
    was never registered; the log call comes last, after the list was
    updated. *)
Definition Room_unregister (event_type : Z) (callback : option nat)
    (callbacks : gmap Z (list nat)) : result unit * gmap Z (list nat) :=
  match callbacks !! event_type with
  | None => (Raise KeyError, callbacks)
  | Some l =>
      (log_event_name event_type,
       match callback with
       | Some cb =>
           if decide (cb ∈ l) then <[event_type := list_remove cb l]> callbacks
           else callbacks
       | None =>
           if decide (0 < length l)%nat then <[event_type := removelast l]> callbacks
           else callbacks
       end)
  end.

(** * Properties *)

(** ** Running the monad *)

Lemma bind_Ok {A B} (m : M A) (k : A -> M B) s a s' :
  m s = (Ok a, s') -> (m ≫= k) s = k a s'.
Proof. intros E. unfold mbind, M_bind, bind. now rewrite E. Qed.

Lemma bind_Raise {A B} (m : M A) (k : A -> M B) s e s' :
  m s = (Raise e, s') -> (m ≫= k) s = (Raise e, s').
Proof. intros E. unfold mbind, M_bind, bind. now rewrite E. Qed.

Lemma deref_Ok s u U : units s !! u = Some U -> deref u s = (Ok U, s).
Proof. intros E. unfold deref. now rewrite E. Qed.

Lemma terrain_at_Ok s c t : terrains s !! c = Some t -> terrain_at (Some c) s = (Ok t, s).
Proof. intros E. unfold terrain_at. simpl. now rewrite E. Qed.

Lemma terrain_at_missing s c : terrains s !! c = None -> terrain_at (Some c) s = (Raise KeyError, s).
Proof. intros E. unfold terrain_at. simpl. now rewrite E. Qed.

Lemma get_unit_Ok s c t : terrains s !! c = Some t -> get_unit c s = (Ok (terrain_unit t), s).
Proof. intros E. unfold get_unit. now rewrite (bind_Ok _ _ _ _ _ (terrain_at_Ok _ _ _ E)). Qed.

Lemma get_unit_inv s c o s' :
  get_unit c s = (Ok o, s') -> s' = s /\ exists t, terrains s !! c = Some t /\ terrain_unit t = o.
Proof.
  unfold get_unit, mbind, M_bind, bind, terrain_at. simpl.
  destruct (terrains s !! c) as [t|]; [|discriminate].
  unfold mret, M_ret, ret. intros [= <- <-]. eauto.
Qed.

Lemma set_terrain_unit_Ok s c t o :
  terrains s !! c = Some t ->
  set_terrain_unit (Some c) o s =
  (Ok tt, with_terrains (<[c := mkTerrain (allowed t) o]> (terrains s)) s).
Proof.
  intros E. unfold set_terrain_unit.
  now rewrite (bind_Ok _ _ _ _ _ (terrain_at_Ok _ _ _ E)).
Qed.

Lemma set_terrain_unit_missing s c o :
  terrains s !! c = None -> set_terrain_unit (Some c) o s = (Raise KeyError, s).
Proof.
  intros E. unfold set_terrain_unit.
  now rewrite (bind_Raise _ _ _ _ _ (terrain_at_missing _ _ E)).
Qed.

Lemma Unit_move_Ok s u U c :
  units s !! u = Some U ->
  Unit_move u c s =
  (Ok tt, with_units (<[u := mkUnit c (played U) (movement U) (weapon_range U)
                                   (allowed_terrains U) (team U)]> (units s)) s).
Proof. intros E. unfold Unit_move. now rewrite (bind_Ok _ _ _ _ _ (deref_Ok _ _ _ E)). Qed.

(** ** [move] *)

Section Move.

Variable shortest_path : TileMap -> Coordinate -> Coordinate -> Z -> list Coordinate.

(** [move] onto a free cell, step by step. *)
Lemma move_run s u U d td :
  units s !! u = Some U -> coord U ≠ d ->
  terrains s !! d = Some td -> terrain_unit td = None ->
  move shortest_path u d s =
  match shortest_path s (coord U) d (movement U) with
  | [] => (Raise IndexError, s)
  | p =>
      match terrains s !! coord U with
      | Some ta => (Ok tt, moved u U d ta td p s)
      | None => (Raise KeyError, with_return_path (Some (rev (removelast p) ++ [coord U])) s)
      end
  end.
Proof.
  intros HU Hne Hd Hfree. unfold move.
  rewrite (bind_Ok _ _ _ _ _ (deref_Ok _ _ _ HU)).
  destruct (decide (coord U ≠ d)) as [_|]; [|contradiction].
  rewrite (bind_Ok _ _ _ _ _ (get_unit_Ok _ _ _ Hd)), Hfree.
  unfold move_animation.
  unfold mbind at 1, M_bind at 1, bind at 1.
  unfold mbind at 1, M_bind at 1, bind at 1.
  rewrite (bind_Ok _ _ _ _ _ (deref_Ok _ _ _ HU)).
  unfold mbind at 1, M_bind at 1, bind at 1. unfold get at 1.
  unfold mret, M_ret, ret.
  destruct (shortest_path s (coord U) d (movement U)) as [|c0 p0] eqn:Hp; [reflexivity|].
  unfold mbind, M_bind, bind, modify. cbn [with_return_path].
  destruct (terrains s !! coord U) as [ta|] eqn:Ha.
  - rewrite (set_terrain_unit_Ok _ _ ta) by exact Ha.
    rewrite (set_terrain_unit_Ok _ _ td)
      by (cbn; rewrite lookup_insert_ne by exact Hne; exact Hd).
    rewrite (Unit_move_Ok _ _ U) by exact HU.
    reflexivity.
  - rewrite set_terrain_unit_missing by exact Ha. reflexivity.
Qed.

(** C10: [move] to the unit's own coordinate is a no-op: no error, and
    the map, with its occupancy, the unit's coordinate and the stored
    return path, is the one before the call. *)
Theorem move_to_own_coordinate_is_noop s u U :
  units s !! u = Some U ->
  move shortest_path u (coord U) s = (Ok tt, s).
Proof.
  intros HU. unfold move.
  rewrite (bind_Ok _ _ _ _ _ (deref_Ok _ _ _ HU)).
  destruct (decide (coord U ≠ coord U)) as [Hne|_]; [now destruct Hne|reflexivity].
Qed.

(** C1: [move] to another coordinate whose cell holds a unit raises
    the "already occupied" [ValueError] and leaves the whole map as it
    was: occupancy, the unit's coordinate and the stored return path.
    Whose unit stands on the cell plays no part, so an enemy's cell is
    rejected as well. *)
Theorem move_onto_occupied_cell_fails s u U d t o :
  units s !! u = Some U -> coord U ≠ d ->
  terrains s !! d = Some t -> terrain_unit t = Some o ->
  move shortest_path u d s = (Raise (ValueError (OccupiedDestination d)), s).
Proof.
  intros HU Hne Hd Ho. unfold move.
  rewrite (bind_Ok _ _ _ _ _ (deref_Ok _ _ _ HU)).
  destruct (decide (coord U ≠ d)) as [_|]; [|contradiction].
  now rewrite (bind_Ok _ _ _ _ _ (get_unit_Ok _ _ _ Hd)), Ho.
Qed.

(** What [pop], [reverse] and [append] make of a path: the reversed
    path with its first coordinate taken off and [a] put at the end. *)
Lemma rev_removelast (p : list Coordinate) : rev (removelast p) = tail (rev p).
Proof.
  destruct p as [|c p]; [reflexivity|].
  destruct (exists_last (l := c :: p)) as (q & x & ->); [discriminate|].
  now rewrite removelast_last, rev_unit.
Qed.

Lemma snoc_cons_same (l : list Coordinate) a d : l ++ [a] = d :: l -> a = d.
Proof.
  induction l as [|y l IH]; simpl; intros E.
  - now injection E.
  - injection E as -> E. now apply IH.
Qed.

Lemma return_path_shape (p : list Coordinate) (a d : Coordinate) :
  p ≠ [] -> a ≠ d ->
  let r := rev (removelast p) ++ [a] in
  r = tail (rev p) ++ [a] /\
  last r = Some a /\
  length r = length p /\
  (last p = Some d -> r ≠ rev p /\ (NoDup p -> d ∉ r)).
Proof.
  intros Hp Had. cbn zeta.
  split; [now rewrite rev_removelast|]. split; [apply last_snoc|].
  destruct (exists_last Hp) as (q & x & ->).
  rewrite removelast_last. split.
  - rewrite !length_app, length_rev. reflexivity.
  - rewrite last_snoc. intros [= ->]. split.
    + rewrite rev_unit. intros E. now apply snoc_cons_same in E.
    + intros Hnd. apply NoDup_app in Hnd as (_ & Hq & _).
      rewrite elem_of_app, list_elem_of_singleton.
      intros [Hin|E]; [|congruence].
      apply list_elem_of_In in Hin. apply (proj2 (in_rev q d)) in Hin.
      apply list_elem_of_In in Hin. apply (Hq d Hin). left.
Qed.

(** C2: a [move] to a free cell [d] other than the unit's own succeeds
    as soon as the pathfinder gives a path and the unit's cell exists;
    and whenever it succeeds, the map it leaves has the unit on [d],
    nobody on the old cell and the unit's coordinate equal to [d],
    every other cell and unit as before. The list kept for the undo is
    the reversed path with its first coordinate taken off and the old
    coordinate put at the end: it is as long as the path and ends at
    the old coordinate, but for a path that ends at [d] it is not the
    reversed path, and it does not hold [d] when the path visits no
    cell twice. *)
Theorem move_places_unit s u U d td :
  units s !! u = Some U -> coord U ≠ d ->
  terrains s !! d = Some td -> terrain_unit td = None ->
  let p := shortest_path s (coord U) d (movement U) in
  (p ≠ [] -> is_Some (terrains s !! coord U) ->
   exists s', move shortest_path u d s = (Ok tt, s')) /\
  (forall s', move shortest_path u d s = (Ok tt, s') ->
     get_unit d s' = (Ok (Some u), s') /\
     get_unit (coord U) s' = (Ok None, s') /\
     (exists U', deref u s' = (Ok U', s') /\ coord U' = d) /\
     (forall c, c ≠ d -> c ≠ coord U -> terrains s' !! c = terrains s !! c) /\
     (forall v, v ≠ u -> units s' !! v = units s !! v) /\
     exists r,
       return_path s' = Some r /\
       r = tail (rev p) ++ [coord U] /\
       last r = Some (coord U) /\
       length r = length p /\
       (last p = Some d -> r ≠ rev p /\ (NoDup p -> d ∉ r))).
Proof.
  intros HU Hne Hd Hfree p. subst p.
  rewrite (move_run s u U d td HU Hne Hd Hfree).
  destruct (shortest_path s (coord U) d (movement U)) as [|c0 p0] eqn:Hp.
  - split; [intros Hnil; now destruct Hnil | discriminate].
  - destruct (terrains s !! coord U) as [ta|] eqn:Ha.
    + split; [eauto|]. intros s' [= <-]. unfold moved.
      split; [|split; [|split; [|split; [|split]]]].
      * apply (get_unit_Ok _ _ (mkTerrain (allowed td) (Some u))).
        cbn. apply lookup_insert_eq.
      * apply (get_unit_Ok _ _ (mkTerrain (allowed ta) None)).
        cbn. rewrite lookup_insert_ne by congruence. apply lookup_insert_eq.
      * eexists. split; [apply deref_Ok; cbn; apply lookup_insert_eq|reflexivity].
      * intros c Hc1 Hc2. cbn. now rewrite !lookup_insert_ne by congruence.
      * intros v Hv. cbn. now rewrite lookup_insert_ne by congruence.
      * eexists. split; [reflexivity|].
        apply (return_path_shape (c0 :: p0) (coord U) d); [discriminate|exact Hne].
    + split; [|discriminate]. intros _ [x Hx]. discriminate.
Qed.

End Move.

(** ** [move_undo] *)

Section Undo.

Variable shortest_path : TileMap -> Coordinate -> Coordinate -> Z -> list Coordinate.

Lemma reset_selection_run s :
  reset_selection s =
  (Ok tt, mkTileMap (w s) (h s) (terrains s) (units s) (active_team s)
                    None None [] [] [] (return_path s)).
Proof. reflexivity. Qed.

Lemma curr_unit_Ok s c t :
  curr_sel s = Some c -> terrains s !! c = Some t ->
  curr_unit s = (Ok (terrain_unit t), s).
Proof.
  intros Hc Ht. unfold curr_unit, mbind, M_bind, bind, get, try_except.
  rewrite Hc. unfold terrain_at. simpl. now rewrite Ht.
Qed.

Lemma prev_unit_Ok s c t :
  prev_sel s = Some c -> terrains s !! c = Some t ->
  prev_unit s = (Ok (terrain_unit t), s).
Proof.
  intros Hc Ht. unfold prev_unit, mbind, M_bind, bind, get, try_except.
  rewrite Hc. unfold terrain_at. simpl. now rewrite Ht.
Qed.

Lemma snoc_is_cons {A} (l : list A) (a : A) : exists c p, l ++ [a] = c :: p.
Proof. destruct l as [|c l]; simpl; eauto. Qed.

(** [move_undo] on the map a move from [coord U] to [b] has left, the
    two selections being the old and the new cell. *)
Lemma move_undo_after_move s u U b ta tb p :
  units s !! u = Some U ->
  terrains s !! coord U = Some ta -> terrains s !! b = Some tb ->
  coord U ≠ b ->
  prev_sel s = Some (coord U) -> curr_sel s = Some b ->
  move_undo shortest_path (moved u U b ta tb p s) =
  (Ok tt,
   mkTileMap (w s) (h s)
     (<[b := mkTerrain (allowed tb) None]>
        (<[coord U := mkTerrain (allowed ta) (Some u)]>
           (<[b := mkTerrain (allowed tb) (Some u)]>
              (<[coord U := mkTerrain (allowed ta) None]> (terrains s)))))
     (<[u := mkUnit (coord U) (played U) (movement U) (weapon_range U)
                    (allowed_terrains U) (team U)]>
        (<[u := mkUnit b (played U) (movement U) (weapon_range U)
                       (allowed_terrains U) (team U)]> (units s)))
     (active_team s) None None [] [] [] None).
Proof.
  intros HU Ha Hb Hne Hprev Hcurr.
  set (s1 := moved u U b ta tb p s).
  assert (Hc1 : curr_sel s1 = Some b) by exact Hcurr.
  assert (Hp1 : prev_sel s1 = Some (coord U)) by exact Hprev.
  assert (Hb1 : terrains s1 !! b = Some (mkTerrain (allowed tb) (Some u)))
    by (cbn; apply lookup_insert_eq).
  assert (Ha1 : terrains s1 !! coord U = Some (mkTerrain (allowed ta) None))
    by (cbn; rewrite lookup_insert_ne by congruence; apply lookup_insert_eq).
  assert (Hr1 : return_path s1 = Some (rev (removelast p) ++ [coord U])) by reflexivity.
  assert (HU1 : units s1 !! u = Some (mkUnit b (played U) (movement U) (weapon_range U)
                                           (allowed_terrains U) (team U)))
    by (cbn; apply lookup_insert_eq).
  unfold move_undo.
  unfold mbind at 1, M_bind at 1, bind at 1, get at 1.
  unfold mbind at 1, M_bind at 1, bind at 1.
  rewrite Hc1, Hp1, Hr1.
  destruct (decide (Some b ≠ Some (coord U))) as [_|Heq]; [|exfalso; apply Heq; congruence].
  rewrite (bind_Ok _ _ _ _ _ (curr_unit_Ok _ _ _ Hc1 Hb1)). cbn [terrain_unit].
  destruct (snoc_is_cons (rev (removelast p)) (coord U)) as (c & p' & ->).
  unfold mbind at 1, M_bind at 1, bind at 1.
  unfold mbind at 1, M_bind at 1, bind at 1.
  unfold move_animation.
  unfold mbind at 1, M_bind at 1, bind at 1.
  unfold ret, modify.
  set (s2 := with_return_path None s1).
  rewrite (bind_Ok _ _ _ _ _ (set_terrain_unit_Ok s2 _ _ (Some u) Ha1)).
  match goal with
  | |- context [(set_terrain_unit (Some b) None ≫= _) ?s3] =>
      assert (Hb3 : terrains s3 !! b = Some (mkTerrain (allowed tb) (Some u)))
        by (cbn; rewrite lookup_insert_ne by congruence; exact Hb1);
      rewrite (bind_Ok _ _ _ _ _ (set_terrain_unit_Ok s3 b _ None Hb3))
  end.
  match goal with
  | |- context [Unit_move u (coord U) ?s4] =>
      rewrite (Unit_move_Ok s4 u _ (coord U) HU1)
  end.
  reflexivity.
Qed.

Lemma terrain_eta t o : terrain_unit t = o -> mkTerrain (allowed t) o = t.
Proof. intros <-. now destruct t. Qed.

Lemma undo_terrains (m : gmap Coordinate Terrain) a b ta tb (x y : Terrain) :
  m !! a = Some ta -> m !! b = Some tb ->
  <[b := tb]> (<[a := ta]> (<[b := x]> (<[a := y]> m))) = m.
Proof.
  intros Ha Hb. apply map_eq. intros k.
  destruct (decide (k = b)) as [->|Hkb]; [now rewrite lookup_insert_eq|].
  rewrite lookup_insert_ne by congruence.
  destruct (decide (k = a)) as [->|Hka]; [now rewrite lookup_insert_eq|].
  now rewrite !lookup_insert_ne by congruence.
Qed.

Lemma undo_units (m : gmap uref Unit) u U b :
  m !! u = Some U ->
  <[u := mkUnit (coord U) (played U) (movement U) (weapon_range U)
                (allowed_terrains U) (team U)]>
    (<[u := mkUnit b (played U) (movement U) (weapon_range U)
                   (allowed_terrains U) (team U)]> m) = m.
Proof.
  intros HU. rewrite insert_insert_eq. apply insert_id. now destruct U.
Qed.

(** Move, then undo: the map is the one before the move, with the
    selection reset and no return path. *)
Lemma move_then_undo s u U b ta tb s1 :
  units s !! u = Some U ->
  terrains s !! coord U = Some ta -> terrain_unit ta = Some u ->
  terrains s !! b = Some tb -> terrain_unit tb = None ->
  prev_sel s = Some (coord U) -> curr_sel s = Some b ->
  move shortest_path u b s = (Ok tt, s1) ->
  move_undo shortest_path s1 =
  (Ok tt, mkTileMap (w s) (h s) (terrains s) (units s) (active_team s)
                    None None [] [] [] None).
Proof.
  intros HU Ha Hta Hb Htb Hprev Hcurr Hmove.
  assert (Hne : coord U ≠ b) by (intros E; rewrite E in Ha; congruence).
  rewrite (move_run shortest_path s u U b tb HU Hne Hb Htb), Ha in Hmove.
  destruct (shortest_path s (coord U) b (movement U)) as [|c0 p0]; [discriminate|].
  injection Hmove as <-.
  rewrite (move_undo_after_move s u U b ta tb (c0 :: p0) HU Ha Hb Hne Hprev Hcurr).
  rewrite (terrain_eta ta (Some u) Hta), (terrain_eta tb None Htb).
  now rewrite (undo_terrains _ _ _ _ _ _ _ Ha Hb), (undo_units _ _ _ _ HU).
Qed.

(** C3: after a successful move of [u] from [a = coord U] to [b],
    the two selections being [a] and [b] as [select] leaves them when
    it triggers the move, [move_undo] succeeds and gives back the map
    before the move: [u] stands on [a] again, nobody stands on [b],
    the unit's coordinate is [a], the terrain dictionary and the unit
    store are the ones before the move, the return path is cleared and
    the selection is reset (no current or previous selection, empty
    move and attack areas). *)
Theorem undo_restores_pre_move_state s u U b ta tb s1 :
  units s !! u = Some U ->
  terrains s !! coord U = Some ta -> terrain_unit ta = Some u ->
  terrains s !! b = Some tb -> terrain_unit tb = None ->
  prev_sel s = Some (coord U) -> curr_sel s = Some b ->
  move shortest_path u b s = (Ok tt, s1) ->
  exists s2,
    move_undo shortest_path s1 = (Ok tt, s2) /\
    get_unit (coord U) s2 = (Ok (Some u), s2) /\
    get_unit b s2 = (Ok None, s2) /\
    deref u s2 = (Ok U, s2) /\
    terrains s2 = terrains s /\ units s2 = units s /\
    return_path s2 = None /\
    curr_sel s2 = None /\ prev_sel s2 = None /\
    move_area s2 = [] /\ attack_area s2 = [].
Proof.
  intros HU Ha Hta Hb Htb Hprev Hcurr Hmove.
  rewrite (move_then_undo s u U b ta tb s1 HU Ha Hta Hb Htb Hprev Hcurr Hmove).
  eexists. split; [reflexivity|].
  split; [rewrite <- Hta; now apply get_unit_Ok|].
  split; [rewrite <- Htb; now apply get_unit_Ok|].
  split; [now apply deref_Ok|].
  repeat split.
Qed.

End Undo.

(** ** Ranges, rings and the attack area *)

Lemma elem_of_range k lo hi : k ∈ range lo hi <-> lo <= k < hi.
Proof. unfold range. rewrite elem_of_seqZ. lia. Qed.

Lemma NoDup_range lo hi : NoDup (range lo hi).
Proof. apply NoDup_seqZ. Qed.

Lemma distance_within (x y a b r : Z) :
  distance (x, y) (a, b) <= r ->
  x - r <= a < x + r + 1 /\ y - r <= b < y + r + 1.
Proof. unfold distance. simpl. lia. Qed.

Section Folds.

Context {B : Type} (f : list Coordinate -> B -> list Coordinate).

Lemma fold_left_elem (Q : B -> Coordinate -> Prop) :
  (forall acc b c, c ∈ f acc b <-> c ∈ acc \/ Q b c) ->
  forall l acc c, c ∈ fold_left f l acc <-> c ∈ acc \/ exists b, b ∈ l /\ Q b c.
Proof.
  intros Hf l. induction l as [|b l IH]; intros acc c; simpl.
  - split; [auto|]. intros [H|(b & Hb & _)]; [exact H|]. now apply elem_of_nil in Hb.
  - rewrite IH, Hf. split.
    + intros [[H|H]|(b' & Hb' & H)]; [auto| |].
      * right. exists b. split; [left|exact H].
      * right. exists b'. split; [now right|exact H].
    + intros [H|(b' & Hb' & H)]; [auto|].
      apply elem_of_cons in Hb' as [->|Hb']; [auto|]. right. eauto.
Qed.

Lemma fold_left_NoDup :
  (forall acc b, NoDup acc -> NoDup (f acc b)) ->
  forall l acc, NoDup acc -> NoDup (fold_left f l acc).
Proof.
  intros Hf l. induction l as [|b l IH]; intros acc Hacc; simpl; auto.
Qed.

End Folds.

Lemma set_attack_area_cell_elem mv center mn mx acc ij c :
  c ∈ set_attack_area_cell mv center mn mx acc ij <->
  c ∈ acc \/ (c = ij /\ (c ∉ mv) /\ mn <= distance center c <= mx).
Proof.
  unfold set_attack_area_cell.
  destruct (bool_decide (ij ∈ mv)) eqn:Hmv; simpl.
  - apply bool_decide_eq_true in Hmv. split; [auto|].
    intros [H|(-> & H & _)]; [exact H|contradiction].
  - apply bool_decide_eq_false in Hmv.
    destruct (bool_decide (ij ∈ acc)) eqn:Hacc; simpl.
    + apply bool_decide_eq_true in Hacc. split; [auto|].
      intros [H|(-> & _)]; assumption.
    + destruct (mn <=? distance center ij) eqn:H1; simpl;
        [destruct (distance center ij <=? mx) eqn:H2|].
      * rewrite elem_of_app, list_elem_of_singleton. split.
        -- intros [H| ->]; [auto|]. right. repeat split; [exact Hmv|lia|lia].
        -- intros [H|(-> & _)]; auto.
      * split; [auto|]. intros [H|(-> & _ & H)]; [exact H|lia].
      * split; [auto|]. intros [H|(-> & _ & H)]; [exact H|lia].
Qed.

Lemma set_attack_area_cell_NoDup mv center mn mx acc ij :
  NoDup acc -> NoDup (set_attack_area_cell mv center mn mx acc ij).
Proof.
  intros Hacc. unfold set_attack_area_cell.
  destruct (bool_decide (ij ∈ mv)); simpl; [exact Hacc|].
  destruct (bool_decide (ij ∈ acc)) eqn:Hin; simpl; [exact Hacc|].
  apply bool_decide_eq_false in Hin.
  destruct (_ && _); [|exact Hacc].
  apply NoDup_app. split; [exact Hacc|]. split; [|apply NoDup_singleton].
  intros x Hx Hx'. apply list_elem_of_singleton in Hx'. now subst.
Qed.

Lemma attack_fill_elem mv center mn mx acc c :
  c ∈ attack_fill mv center mn mx acc <->
  c ∈ acc \/ ((c ∉ mv) /\ mn <= distance center c <= mx).
Proof.
  destruct center as [x y]. unfold attack_fill.
  rewrite (fold_left_elem _
    (fun i c => c.1 = i /\ c.2 ∈ range (y - mx) (y + mx + 1)
                /\ (c ∉ mv) /\ mn <= distance (x, y) c <= mx)).
  - split; [intros [H|(i & _ & _ & _ & H)]; auto|].
    intros [H|[Hmv Hd]]; [auto|]. right. destruct c as [a b].
    destruct (distance_within x y a b mx) as [Ha Hb]; [lia|].
    exists a. rewrite !elem_of_range. simpl. auto.
  - intros acc' i c'.
    rewrite (fold_left_elem _
      (fun j c => c = (i, j) /\ (c ∉ mv) /\ mn <= distance (x, y) c <= mx)).
    + split; (intros [H|H]; [auto|right]).
      * destruct H as (j & Hj & -> & H). simpl. auto.
      * destruct H as (<- & Hj & H). exists (c'.2). split; [exact Hj|].
        split; [now destruct c'|exact H].
    + intros acc'' j c''. apply set_attack_area_cell_elem.
Qed.

Lemma attack_fill_NoDup mv center mn mx acc :
  NoDup acc -> NoDup (attack_fill mv center mn mx acc).
Proof.
  destruct center as [x y]. unfold attack_fill.
  apply fold_left_NoDup. intros acc' i. apply fold_left_NoDup.
  intros acc'' j. apply set_attack_area_cell_NoDup.
Qed.

Lemma combined_area_elem mv mn mx c :
  c ∈ combined_area mv mn mx <->
  (exists m, m ∈ mv /\ mn <= distance m c <= mx) /\ c ∉ mv.
Proof.
  unfold combined_area.
  rewrite (fold_left_elem _ (fun m c => (c ∉ mv) /\ mn <= distance m c <= mx)).
  - split.
    + intros [H|(m & Hm & Hmv & Hd)]; [now apply elem_of_nil in H|]. eauto.
    + intros [(m & Hm & Hd) Hmv]. right. eauto.
  - intros acc m c'. apply attack_fill_elem.
Qed.

Lemma combined_area_NoDup mv mn mx : NoDup (combined_area mv mn mx).
Proof.
  unfold combined_area. apply fold_left_NoDup.
  - intros acc m. apply attack_fill_NoDup.
  - apply NoDup_nil_2.
Qed.

Section Comprehension.

Variable P : Z -> Z -> bool.

Lemma row_elem i lj (c : Coordinate) :
  c ∈ flat_map (fun j => if P i j then [(i, j)] else []) lj <->
  c.1 = i /\ c.2 ∈ lj /\ P i c.2 = true.
Proof.
  rewrite list_elem_of_In, in_flat_map. split.
  - intros (j & Hj & H). apply list_elem_of_In in Hj.
    destruct (P i j) eqn:E; [|destruct H].
    destruct H as [<-|[]]. simpl. auto.
  - intros (<- & Hj & E). exists (c.2). split; [now apply list_elem_of_In|].
    rewrite E. left. now destruct c.
Qed.

Lemma row_NoDup i lj :
  NoDup lj -> NoDup (flat_map (fun j => if P i j then [(i, j)] else []) lj).
Proof.
  induction 1 as [|j lj Hj _ IH]; simpl; [apply NoDup_nil_2|].
  destruct (P i j); simpl; [|exact IH].
  apply NoDup_cons. split; [|exact IH].
  rewrite row_elem. simpl. tauto.
Qed.

Lemma grid_elem li lj (c : Coordinate) :
  c ∈ flat_map (fun i => flat_map (fun j => if P i j then [(i, j)] else []) lj) li <->
  c.1 ∈ li /\ c.2 ∈ lj /\ P c.1 c.2 = true.
Proof.
  rewrite list_elem_of_In, in_flat_map. split.
  - intros (i & Hi & H). apply list_elem_of_In in Hi, H.
    apply row_elem in H as (<- & Hj & E). auto.
  - intros (Hi & Hj & E). exists (c.1). split; [now apply list_elem_of_In|].
    apply list_elem_of_In, row_elem. auto.
Qed.

Lemma grid_NoDup li lj :
  NoDup li -> NoDup lj ->
  NoDup (flat_map (fun i => flat_map (fun j => if P i j then [(i, j)] else []) lj) li).
Proof.
  intros Hli Hlj. induction Hli as [|i li Hi _ IH]; simpl; [apply NoDup_nil_2|].
  apply NoDup_app. split; [now apply row_NoDup|]. split; [|exact IH].
  intros c Hc Hc'. apply row_elem in Hc as (<- & _). apply grid_elem in Hc' as (Hc' & _).
  contradiction.
Qed.

End Comprehension.

Lemma check_coord_spec s c :
  check_coord s c = true <-> (0 <= c.1 < w s /\ 0 <= c.2 < h s).
Proof. destruct c as [x y]. unfold check_coord. simpl. lia. Qed.

Lemma elem_of_area s center radius hole c :
  c ∈ area s center radius hole <->
  check_coord s c = true /\ hole <= distance center c <= radius.
Proof.
  destruct center as [x y]. unfold area.
  rewrite (grid_elem (fun i j =>
    check_coord s (i, j)
    && ((hole <=? distance (x, y) (i, j)) && (distance (x, y) (i, j) <=? radius)))).
  rewrite !elem_of_range. destruct c as [a b]. simpl. split.
  - intros (_ & _ & E). apply andb_true_iff in E as [E1 E2]. split; [exact E1|lia].
  - intros [E1 E2]. destruct (distance_within x y a b radius) as [Ha Hb]; [lia|].
    rewrite E1. simpl. repeat split; lia.
Qed.

Lemma area_NoDup s center radius hole : NoDup (area s center radius hole).
Proof.
  destruct center as [x y]. unfold area.
  apply (grid_NoDup (fun i j =>
    check_coord s (i, j)
    && ((hole <=? distance (x, y) (i, j)) && (distance (x, y) (i, j) <=? radius))));
    apply NoDup_range.
Qed.

Lemma range3 lo hi : hi - lo = 3 -> range lo hi = [lo; lo + 1; lo + 2].
Proof.
  intros E. unfold range, seqZ. rewrite E. change (Z.to_nat 3) with 3%nat.
  cbn [seq fmap list_fmap].
  change (Z.of_nat 0) with 0. change (Z.of_nat 1) with 1. change (Z.of_nat 2) with 2.
  now rewrite Z.add_0_l, (Z.add_comm 1), (Z.add_comm 2).
Qed.

Lemma cell_cond s x y hole radius i j :
  check_coord s (i, j)
  && ((hole <=? distance (x, y) (i, j)) && (distance (x, y) (i, j) <=? radius)) = true <->
  (0 <= i < w s /\ 0 <= j < h s) /\ hole <= Z.abs (x - i) + Z.abs (y - j) <= radius.
Proof. unfold check_coord, distance. simpl. lia. Qed.

Ltac decide_cell :=
  match goal with
  | |- context [if ?b then _ else _] =>
      let E := fresh "E" in
      destruct b eqn:E;
      [ apply cell_cond in E
      | apply not_true_iff_false in E; rewrite cell_cond in E ];
      try (exfalso; lia); clear E
  end.

(** C8: [area(center, radius, hole)] is the ring around [center]: its
    members are exactly the coordinates inside the grid whose Manhattan
    distance to [center] lies between [hole] and [radius], each listed
    once; and around a centre whose four neighbours are inside the
    grid, the ring of distance one is these four neighbours. *)
Theorem area_is_ring s :
  (forall center radius hole,
     (forall c, c ∈ area s center radius hole <->
                (0 <= c.1 < w s /\ 0 <= c.2 < h s) /\
                hole <= distance center c <= radius) /\
     NoDup (area s center radius hole)) /\
  (forall x y, 1 <= x -> x + 1 < w s -> 1 <= y -> y + 1 < h s ->
     area s (x, y) 1 1 = [(x - 1, y); (x, y - 1); (x, y + 1); (x + 1, y)]).
Proof.
  split.
  - intros center radius hole. split; [|apply area_NoDup].
    intros c. now rewrite elem_of_area, check_coord_spec.
  - intros x y Hx1 Hx2 Hy1 Hy2. unfold area.
    rewrite (range3 (x - 1)), (range3 (y - 1)) by lia.
    cbn [flat_map app].
    repeat decide_cell.
    cbn [app].
    replace (y - 1 + 1) with y by lia. replace (x - 1 + 1) with x by lia.
    replace (y - 1 + 2) with (y + 1) by lia. replace (x - 1 + 2) with (x + 1) by lia.
    reflexivity.
Qed.

(** ** The attack area of [move_attack_area] *)

Lemma with_attack_area_id s : with_attack_area (attack_area s) s = s.
Proof. now destruct s. Qed.

Lemma for_each_set_attack_area l mn mx s :
  for_each l (fun c => set_attack_area c mn mx) s =
  (Ok tt, with_attack_area
            (fold_left (fun acc c => attack_fill (move_area s) c mn mx acc) l (attack_area s))
            s).
Proof.
  revert s. induction l as [|c l IH]; intros s; simpl.
  - now rewrite with_attack_area_id.
  - unfold mbind, M_bind, bind, set_attack_area, modify. now rewrite IH.
Qed.

Lemma move_attack_area_run s c0 t r U :
  curr_sel s = Some c0 -> terrains s !! c0 = Some t ->
  terrain_unit t = Some r -> units s !! r = Some U ->
  move_attack_area s =
  (Ok tt, with_attack_area
            (combined_area (move_area s) (weapon_range U).1 (weapon_range U).2) s).
Proof.
  intros Hc Ht Hr HU. unfold move_attack_area.
  rewrite (bind_Ok _ _ _ _ _ (curr_unit_Ok _ _ _ Hc Ht)), Hr.
  rewrite (bind_Ok _ _ _ _ _ (deref_Ok _ _ _ HU)).
  destruct (weapon_range U) as [mn mx].
  unfold mbind, M_bind, bind, modify, get.
  now rewrite for_each_set_attack_area.
Qed.

(** [move_attack_area] leaves the move area as it is and fills the
    attack area with exactly the coordinates that lie, for some [m] of
    the move area, at a Manhattan distance from [m] between the minimal
    and maximal weapon range, and that are not of the move area
    themselves; so the two areas share no coordinate. For the
    coordinates inside the grid this is membership in the union of the
    rings [area(m, max, min)] without the move area. *)
Lemma move_attack_area_elem s c0 t r U :
  curr_sel s = Some c0 -> terrains s !! c0 = Some t ->
  terrain_unit t = Some r -> units s !! r = Some U ->
  exists s',
    move_attack_area s = (Ok tt, s') /\
    move_area s' = move_area s /\
    (forall c, c ∈ attack_area s' <->
       (exists m, m ∈ move_area s /\
                  (weapon_range U).1 <= distance m c <= (weapon_range U).2) /\
       (c ∉ move_area s)) /\
    (forall c, c ∈ attack_area s' -> c ∉ move_area s') /\
    (forall c, check_coord s c = true ->
       (c ∈ attack_area s' <->
        (exists m, m ∈ move_area s /\
                   c ∈ area s m (weapon_range U).2 (weapon_range U).1) /\
        (c ∉ move_area s))).
Proof.
  intros Hc Ht Hr HU.
  rewrite (move_attack_area_run s c0 t r U Hc Ht Hr HU).
  eexists. split; [reflexivity|]. cbn [move_area attack_area with_attack_area].
  split; [reflexivity|]. split; [apply combined_area_elem|].
  split; [intros c Hin; now apply combined_area_elem in Hin|].
  intros c Hb. rewrite combined_area_elem.
  split; intros [(m & Hm & H) Hmv]; (split; [exists m; split; [exact Hm|]|exact Hmv]).
  - apply elem_of_area. auto.
  - now apply elem_of_area in H.
Qed.

(** ** [select] *)

Section Select.

Variable shortest_path : TileMap -> Coordinate -> Coordinate -> Z -> list Coordinate.
Variable path_area : TileMap -> Coordinate -> Z -> list Coordinate.
Variable is_mine : nat -> Unit -> bool.


Lemma update_move_area_run s c t r U :
  curr_sel s = Some c -> terrains s !! c = Some t ->
  terrain_unit t = Some r -> units s !! r = Some U ->
  update_move_area path_area s =
  (Ok tt, with_move_area (path_area s c (movement U)) s).
Proof.
  intros Hc Ht Hr HU. unfold update_move_area.
  unfold mbind at 1, M_bind at 1, bind at 1, get at 1.
  rewrite (bind_Ok _ _ _ _ _ (curr_unit_Ok _ _ _ Hc Ht)), Hr, Hc.
  now rewrite (bind_Ok _ _ _ _ _ (deref_Ok _ _ _ HU)).
Qed.

(** The areas shown for the unit [U] picked at [c]. *)
Lemma show_areas_run s c t r U :
  curr_sel s = Some c -> terrains s !! c = Some t ->
  terrain_unit t = Some r -> units s !! r = Some U ->
  (update_move_area path_area ;; move_attack_area) s =
  (Ok tt,
   with_attack_area
     (combined_area (path_area s c (movement U)) (weapon_range U).1 (weapon_range U).2)
     (with_move_area (path_area s c (movement U)) s)).
Proof.
  intros Hc Ht Hr HU.
  rewrite (bind_Ok _ _ _ _ _ (update_move_area_run s c t r U Hc Ht Hr HU)).
  now rewrite (move_attack_area_run _ c t r U).
Qed.




Lemma can_selection_move_true s a b ta u U :
  prev_sel s = Some a -> terrains s !! a = Some ta ->
  terrain_unit ta = Some u -> units s !! u = Some U ->
  played U = false -> is_mine (active_team s) U = true ->
  curr_sel s = Some b -> b ∈ move_area s ->
  can_selection_move is_mine s = (Ok true, s).
Proof.
  intros Hp Ha Hta HU Hplayed Hmine Hc Hin. unfold can_selection_move.
  unfold mbind at 1, M_bind at 1, bind at 1, get at 1.
  rewrite (bind_Ok _ _ _ _ _ (prev_unit_Ok _ _ _ Hp Ha)), Hta.
  rewrite (bind_Ok _ _ _ _ _ (deref_Ok _ _ _ HU)).
  now rewrite Hplayed, Hmine, Hc, bool_decide_eq_true_2.
Qed.

(** The third rule of [select]: a unit of the active team that has not
    played was picked at [a], and the free cell [b] of its move area is
    picked next: the unit is moved there. *)
Lemma select_moves s a b ta tb u U :
  curr_sel s = Some a -> terrains s !! a = Some ta ->
  terrain_unit ta = Some u -> units s !! u = Some U ->
  played U = false -> is_mine (active_team s) U = true ->
  b ∈ move_area s -> terrains s !! b = Some tb -> terrain_unit tb = None ->
  select shortest_path path_area is_mine b s =
  (move shortest_path u b ;; action_menu) (picked b s).
Proof.
  intros Hc Ha Hta HU Hplayed Hmine Hin Hb Htb. unfold select.
  unfold mbind at 1, M_bind at 1, bind at 1, get at 1.
  unfold mbind at 1, M_bind at 1, bind at 1, modify at 1.
  unfold mbind at 1, M_bind at 1, bind at 1, modify at 1.
  unfold mbind at 1, M_bind at 1, bind at 1, modify at 1.
  change (with_arrow [] (with_curr_sel (Some b) (with_prev_sel (curr_sel s) s)))
    with (picked b s).
  rewrite Hc.
  assert (Hp1 : prev_sel (picked b s) = Some a) by exact Hc.
  assert (Hc1 : curr_sel (picked b s) = Some b) by reflexivity.
  rewrite (bind_Ok _ _ _ _ _ (prev_unit_Ok (picked b s) a ta Hp1 Ha)), Hta.
  rewrite (bind_Ok _ _ _ _ _ (curr_unit_Ok (picked b s) b tb Hc1 Hb)), Htb.
  now rewrite (bind_Ok _ _ _ _ _
                 (can_selection_move_true (picked b s) a b ta u U
                    Hp1 Ha Hta HU Hplayed Hmine Hc1 Hin)).
Qed.

(** Picking a unit's destination and undoing the move it triggers
    gives back the terrain dictionary and the unit store, with nothing
    selected. *)
Lemma select_move_then_undo s b ta tb u U s1 :
  curr_sel s = Some (coord U) -> terrains s !! coord U = Some ta ->
  terrain_unit ta = Some u -> units s !! u = Some U ->
  played U = false -> is_mine (active_team s) U = true ->
  b ∈ move_area s -> terrains s !! b = Some tb -> terrain_unit tb = None ->
  select shortest_path path_area is_mine b s = (Ok tt, s1) ->
  move_undo shortest_path s1 =
  (Ok tt, mkTileMap (w s) (h s) (terrains s) (units s) (active_team s)
                    None None [] [] [] None).
Proof.
  intros Hc Ha Hta HU Hplayed Hmine Hin Hb Htb Hsel.
  rewrite (select_moves s (coord U) b ta tb u U Hc Ha Hta HU Hplayed Hmine Hin Hb Htb)
    in Hsel.
  unfold mbind, M_bind, bind, action_menu, ret in Hsel.
  destruct (move shortest_path u b (picked b s)) as [[[]|e] s1'] eqn:Hmove;
    [|discriminate].
  injection Hsel as <-.
  exact (move_then_undo shortest_path (picked b s) u U b ta tb s1'
           HU Ha Hta Hb Htb Hc eq_refl Hmove).
Qed.

End Select.

(** ** [is_obstacle] *)

Lemma scan_allowed_tags l ua :
  "any"%string ∉ l -> "none"%string ∉ l ->
  (scan_allowed l ua = true <-> forall a, a ∈ l -> a ∉ ua).
Proof.
  induction l as [|a l IH]; intros Hany Hnone; simpl.
  - split; [|reflexivity]. intros _ a Ha. now apply elem_of_nil in Ha.
  - rewrite not_elem_of_cons in Hany, Hnone.
    destruct Hany as [Hany1 Hany2], Hnone as [Hnone1 Hnone2].
    destruct (decide (a = "any"%string)) as [->|_]; [congruence|].
    destruct (decide (a = "none"%string)) as [->|_]; [congruence|].
    destruct (decide (a ∈ ua)) as [Hin|Hnin].
    + split; [discriminate|]. intros H. exfalso. apply (H a); [left|exact Hin].
    + rewrite (IH Hany2 Hnone2). split.
      * intros H b Hb. apply elem_of_cons in Hb as [->|Hb]; auto.
      * intros H b Hb. apply H. now right.
Qed.

Section Obstacle.

Variable enemies : Unit -> Unit -> bool.

Lemma is_obstacle_occupied s c t u U o O :
  terrains s !! c = Some t -> terrain_unit t = Some o ->
  units s !! u = Some U -> units s !! o = Some O ->
  is_obstacle enemies c (Some u) s = (Ok (enemies U O), s).
Proof.
  intros Ht Ho HU HO. unfold is_obstacle, getitem.
  rewrite (bind_Ok _ _ _ _ _ (terrain_at_Ok _ _ _ Ht)), Ho.
  unfold try_except, are_enemies.
  rewrite (bind_Ok _ _ _ _ _ (deref_Ok _ _ _ HU)).
  now rewrite (bind_Ok _ _ _ _ _ (deref_Ok _ _ _ HO)).
Qed.

Lemma is_obstacle_free s c t u U :
  terrains s !! c = Some t -> terrain_unit t = None ->
  units s !! u = Some U ->
  is_obstacle enemies c (Some u) s =
  (Ok (scan_allowed (allowed t) (allowed_terrains U)), s).
Proof.
  intros Ht Ho HU. unfold is_obstacle, getitem.
  rewrite (bind_Ok _ _ _ _ _ (terrain_at_Ok _ _ _ Ht)), Ho.
  unfold try_except, are_enemies, raise.
  destruct (decide (AttributeError = AttributeError)) as [_|Hne]; [|now destruct Hne].
  now rewrite (bind_Ok _ _ _ _ _ (deref_Ok _ _ _ HU)).
Qed.

Lemma is_obstacle_no_mover s c t :
  terrains s !! c = Some t ->
  is_obstacle enemies c None s = (Ok false, s).
Proof.
  intros Ht. unfold is_obstacle, getitem.
  rewrite (bind_Ok _ _ _ _ _ (terrain_at_Ok _ _ _ Ht)).
  unfold try_except, are_enemies, raise.
  destruct (decide (AttributeError = AttributeError)) as [_|Hne]; [|now destruct Hne].
  reflexivity.
Qed.

(** C4: on an existing cell, [is_obstacle] answers: for a mover and an
    occupant, whether they are enemies, the terrain playing no part;
    for a mover and no occupant, that the cell blocks when its allowed
    traversal is ["none"], does not when it is ["any"], and for a list
    of plain tags blocks exactly when none of them is among the
    mover's allowed terrains; and without a mover, that nothing
    blocks, whatever the terrain and the occupant. *)
Theorem is_obstacle_cases s c t :
  terrains s !! c = Some t ->
  (forall u U o O,
     terrain_unit t = Some o -> units s !! u = Some U -> units s !! o = Some O ->
     is_obstacle enemies c (Some u) s = (Ok (enemies U O), s)) /\
  (forall u U,
     terrain_unit t = None -> units s !! u = Some U ->
     exists b,
       is_obstacle enemies c (Some u) s = (Ok b, s) /\
       (allowed t = ["none"%string] -> b = true) /\
       (allowed t = ["any"%string] -> b = false) /\
       ("any"%string ∉ allowed t -> "none"%string ∉ allowed t ->
        (b = true <-> forall a, a ∈ allowed t -> a ∉ allowed_terrains U))) /\
  is_obstacle enemies c None s = (Ok false, s).
Proof.
  intros Ht. split; [|split].
  - intros u U o O Ho HU HO. now apply (is_obstacle_occupied s c t u U o O).
  - intros u U Ho HU. eexists. split; [now apply (is_obstacle_free s c t u U)|].
    split; [now intros ->|]. split; [now intros ->|].
    apply scan_allowed_tags.
  - now apply (is_obstacle_no_mover s c t).
Qed.

End Obstacle.

(** ** The keys of the terrain dictionary *)

Lemma fold_left_is_Some {B} (f : gmap Coordinate Terrain -> B -> gmap Coordinate Terrain)
    (Q : B -> Coordinate -> Prop) :
  (forall m b c, is_Some (f m b !! c) <-> is_Some (m !! c) \/ Q b c) ->
  forall l m c, is_Some (fold_left f l m !! c) <-> is_Some (m !! c) \/ exists b, b ∈ l /\ Q b c.
Proof.
  intros Hf l. induction l as [|b l IH]; intros m c; simpl.
  - split; [auto|]. intros [H|(b & Hb & _)]; [exact H|]. now apply elem_of_nil in Hb.
  - rewrite IH, Hf. split.
    + intros [[H|H]|(b' & Hb' & H)]; [auto| |].
      * right. exists b. split; [left|exact H].
      * right. exists b'. split; [now right|exact H].
    + intros [H|(b' & Hb' & H)]; [auto|].
      apply elem_of_cons in Hb' as [->|Hb']; [auto|]. right. eauto.
Qed.

Lemma elem_of_rev {A} (x : A) (l : list A) : x ∈ rev l <-> x ∈ l.
Proof. rewrite !list_elem_of_In. symmetry. apply in_rev. Qed.

Lemma init_terrains_is_Some layers roster c :
  is_Some (init_terrains layers roster !! c) <->
  exists layer cell, layer ∈ layers /\ cell ∈ layer /\
                     (cell_x cell, cell_y cell) = c /\ is_Some (cell_tile cell).
Proof.
  unfold init_terrains.
  rewrite (fold_left_is_Some _
    (fun layer c => exists cell, cell ∈ layer /\
                                 (cell_x cell, cell_y cell) = c /\ is_Some (cell_tile cell))).
  - rewrite lookup_empty. split.
    + intros [[x Hx]|(layer & Hl & cell & Hc)]; [discriminate|].
      exists layer, cell. rewrite elem_of_rev in Hl. tauto.
    + intros (layer & cell & Hl & Hc). right. exists layer.
      rewrite elem_of_rev. eauto.
  - intros m layer c'.
    apply (fold_left_is_Some _
      (fun cell c => (cell_x cell, cell_y cell) = c /\ is_Some (cell_tile cell))).
    intros m' cell c''.
    destruct (m' !! (cell_x cell, cell_y cell)) as [t0|] eqn:Hm;
      [|destruct (cell_tile cell) as [tile|] eqn:Htile].
    + split; [auto|]. intros [H|[<- _]]; [exact H|]. rewrite Hm. eauto.
    + rewrite lookup_insert. destruct (decide ((cell_x cell, cell_y cell) = c'')) as [E|E].
      * split; [intros _; right; eauto|intros _; eauto].
      * split; [auto|]. intros [H|[H _]]; [exact H|contradiction].
    + split; [auto|]. intros [H|[_ [x Hx]]]; [exact H|discriminate].
Qed.

Lemma getitem_Ok_iff s c :
  (exists t, getitem c s = (Ok t, s)) <-> is_Some (terrains s !! c).
Proof.
  unfold getitem, terrain_at. simpl. destruct (terrains s !! c) as [t|].
  - split; eauto.
  - split; [intros [t H]; discriminate|intros [t H]; discriminate].
Qed.

(** C9: on the map [__init__] builds from layers whose cells lie inside
    the map, [check_coord] holds exactly inside the bounds, and the
    lookup of the cell at [c] succeeds exactly when some layer has a
    tile at [c]; so it succeeds only inside the bounds, a coordinate
    outside them raises [KeyError] and leaves the map alone, and on a
    map with a tile on every position it succeeds exactly inside the
    bounds. *)
Theorem cell_lookup_after_init width height layers roster active c :
  (forall layer cell, layer ∈ layers -> cell ∈ layer ->
     0 <= cell_x cell < width /\ 0 <= cell_y cell < height) ->
  let s := init width height layers roster active in
  let tiled c := exists layer cell, layer ∈ layers /\ cell ∈ layer /\
                   (cell_x cell, cell_y cell) = c /\ is_Some (cell_tile cell) in
  (check_coord s c = true <-> 0 <= c.1 < width /\ 0 <= c.2 < height) /\
  ((exists t, getitem c s = (Ok t, s)) <-> tiled c) /\
  ((exists t, getitem c s = (Ok t, s)) -> 0 <= c.1 < width /\ 0 <= c.2 < height) /\
  (~ (0 <= c.1 < width /\ 0 <= c.2 < height) -> getitem c s = (Raise KeyError, s)) /\
  ((forall x y, 0 <= x < width -> 0 <= y < height -> tiled (x, y)) ->
   ((exists t, getitem c s = (Ok t, s)) <-> 0 <= c.1 < width /\ 0 <= c.2 < height)).
Proof.
  intros Hcells s tiled.
  assert (Hlookup : (exists t, getitem c s = (Ok t, s)) <-> tiled c)
    by (rewrite getitem_Ok_iff; apply init_terrains_is_Some).
  assert (Hin : tiled c -> 0 <= c.1 < width /\ 0 <= c.2 < height).
  { intros (layer & cell & Hl & Hc & <- & _). simpl. eauto. }
  split; [apply check_coord_spec|]. split; [exact Hlookup|].
  split; [intros H; apply Hin, Hlookup, H|]. split.
  - intros Hout. unfold getitem. apply terrain_at_missing.
    destruct (terrains s !! c) as [t|] eqn:E; [|reflexivity].
    exfalso. apply Hout, Hin. apply (init_terrains_is_Some layers roster c). exists t. exact E.
  - intros Hfull. rewrite Hlookup. split; [exact Hin|].
    destruct c as [x y]. simpl. intros [Hx Hy]. now apply Hfull.
Qed.

(** * The properties on the demo map *)

Lemma move_to_own_coordinate_is_noop_witness :
  units demo !! 1%nat = Some (soldier (2, 2) 1%nat) /\
  move spec_shortest_path 1%nat (2, 2) demo = (Ok tt, demo).
Proof.
  assert (HU : units demo !! 1%nat = Some (soldier (2, 2) 1%nat))
    by (vm_compute; reflexivity).
  split; [exact HU|].
  exact (move_to_own_coordinate_is_noop spec_shortest_path demo 1%nat
           (soldier (2, 2) 1%nat) HU).
Defined.

Lemma move_onto_occupied_cell_fails_witness :
  units demo !! 1%nat = Some (soldier (2, 2) 1%nat) /\
  terrains demo !! (0, 0) = Some (mkTerrain ["any"%string] (Some 2%nat)) /\
  move spec_shortest_path 1%nat (0, 0) demo =
  (Raise (ValueError (OccupiedDestination (0, 0))), demo).
Proof.
  assert (HU : units demo !! 1%nat = Some (soldier (2, 2) 1%nat))
    by (vm_compute; reflexivity).
  assert (Hd : terrains demo !! (0, 0) = Some (mkTerrain ["any"%string] (Some 2%nat)))
    by (vm_compute; reflexivity).
  split; [exact HU|]. split; [exact Hd|].
  apply (move_onto_occupied_cell_fails spec_shortest_path demo 1%nat
           (soldier (2, 2) 1%nat) (0, 0) (mkTerrain ["any"%string] (Some 2%nat)) 2%nat HU);
    [discriminate|exact Hd|reflexivity].
Defined.

Lemma move_places_unit_witness :
  units demo !! 1%nat = Some (soldier (2, 2) 1%nat) /\
  terrains demo !! (3, 3) = Some (mkTerrain ["any"%string] None) /\
  exists s',
    move spec_shortest_path 1%nat (3, 3) demo = (Ok tt, s') /\
    get_unit (3, 3) s' = (Ok (Some 1%nat), s') /\
    get_unit (2, 2) s' = (Ok None, s') /\
    return_path s' = Some [(3, 2); (2, 2); (2, 2)].
Proof.
  assert (HU : units demo !! 1%nat = Some (soldier (2, 2) 1%nat))
    by (vm_compute; reflexivity).
  assert (Hd : terrains demo !! (3, 3) = Some (mkTerrain ["any"%string] None))
    by (vm_compute; reflexivity).
  split; [exact HU|]. split; [exact Hd|].
  destruct (move_places_unit spec_shortest_path demo 1%nat (soldier (2, 2) 1%nat)
              (3, 3) (mkTerrain ["any"%string] None) HU ltac:(discriminate) Hd eq_refl)
    as [Hruns Hpost].
  destruct Hruns as [s' Hs'].
  - vm_compute. discriminate.
  - eexists. vm_compute. reflexivity.
  - exists s'. split; [exact Hs'|].
    destruct (Hpost s' Hs') as (H1 & H2 & _ & _ & _ & r & Hr & Hshape & _).
    split; [exact H1|]. split; [exact H2|].
    rewrite Hr, Hshape. vm_compute. reflexivity.
Defined.

(** On the demo map the soldier walks from (2, 2) to (3, 3) along
    (2, 2), (3, 2), (3, 3). The list kept for the undo is (3, 2),
    (2, 2), (2, 2): not the reversed path (3, 3), (3, 2), (2, 2), whose
    first coordinate it lacks. *)
Lemma move_keeps_no_reversed_path :
  spec_shortest_path demo (2, 2) (3, 3) 2 = [(2, 2); (3, 2); (3, 3)] /\
  fst (move spec_shortest_path 1%nat (3, 3) demo) = Ok tt /\
  return_path (snd (move spec_shortest_path 1%nat (3, 3) demo))
  = Some [(3, 2); (2, 2); (2, 2)] /\
  return_path (snd (move spec_shortest_path 1%nat (3, 3) demo))
  <> Some (rev (spec_shortest_path demo (2, 2) (3, 3) 2)).
Proof.
  repeat (split; [vm_compute; reflexivity|]). vm_compute. discriminate.
Qed.

Lemma undo_restores_pre_move_state_witness :
  prev_sel (picked (3, 3) demo_selected) = Some (2, 2) /\
  curr_sel (picked (3, 3) demo_selected) = Some (3, 3) /\
  exists s1 s2,
    move spec_shortest_path 1%nat (3, 3) (picked (3, 3) demo_selected) = (Ok tt, s1) /\
    move_undo spec_shortest_path s1 = (Ok tt, s2) /\
    terrains s2 = terrains demo /\ units s2 = units demo /\
    return_path s2 = None /\ curr_sel s2 = None /\ prev_sel s2 = None.
Proof.
  set (s := picked (3, 3) demo_selected).
  set (s1 := snd (move spec_shortest_path 1%nat (3, 3) s)).
  assert (Hp : prev_sel s = Some (2, 2)) by (vm_compute; reflexivity).
  assert (Hc : curr_sel s = Some (3, 3)) by reflexivity.
  assert (Hmove : move spec_shortest_path 1%nat (3, 3) s = (Ok tt, s1))
    by (vm_compute; reflexivity).
  split; [exact Hp|]. split; [exact Hc|].
  destruct (undo_restores_pre_move_state spec_shortest_path s 1%nat
              (soldier (2, 2) 1%nat) (3, 3)
              (mkTerrain ["any"%string] (Some 1%nat)) (mkTerrain ["any"%string] None) s1)
    as (s2 & Hundo & _ & _ & _ & Ht & Hu & Hr & Hcs & Hps & _);
    try (vm_compute; reflexivity).
  exists s1, s2. split; [exact Hmove|]. split; [exact Hundo|].
  split; [exact Ht|]. split; [exact Hu|]. split; [exact Hr|]. split; [exact Hcs|exact Hps].
Defined.

Lemma is_obstacle_cases_witness :
  terrains demo !! (0, 0) = Some (mkTerrain ["any"%string] (Some 2%nat)) /\
  is_obstacle team_enemies (0, 0) (Some 1%nat) demo = (Ok true, demo) /\
  is_obstacle team_enemies (0, 0) None demo = (Ok false, demo).
Proof.
  assert (Ht : terrains demo !! (0, 0) = Some (mkTerrain ["any"%string] (Some 2%nat)))
    by (vm_compute; reflexivity).
  destruct (is_obstacle_cases team_enemies demo (0, 0) _ Ht) as (Hocc & _ & Hnone).
  split; [exact Ht|]. split; [|exact Hnone].
  apply (Hocc 1%nat (soldier (2, 2) 1%nat) 2%nat (soldier (0, 0) 2%nat));
    vm_compute; reflexivity.
Defined.

(** Without a mover a cell that allows nobody does not block: on the
    one-cell map [wall], whose terrain is ["none"], the answer is
    [False]. *)
Lemma is_obstacle_wall_without_mover :
  terrains wall !! (0, 0) = Some (mkTerrain ["none"%string] None) /\
  is_obstacle team_enemies (0, 0) None wall = (Ok false, wall) /\
  is_obstacle team_enemies (0, 0) None wall <> (Ok true, wall).
Proof.
  split; [vm_compute; reflexivity|]. split; [vm_compute; reflexivity|].
  vm_compute. discriminate.
Qed.



(** C6: on the 5 by 5 demo map with the soldier of (2, 2) picked, whose
    weapon reaches one cell, [move_attack_area] gives an attack area
    that shares no coordinate with the move area but is not the union
    of the rings [area(m, 1, 1)] around the cells [m] of the move area
    without the move area: it holds (5, 2), at distance one of the cell
    (4, 2) of the move area and outside the grid, which no ring holds,
    since [area] tests [check_coord] and [__set_attack_area] does
    not. *)
Theorem attack_area_exceeds_union_of_rings :
  fst (select spec_shortest_path spec_area team_is_mine (2, 2) demo) = Ok tt /\
  move_attack_area demo_selected = (Ok tt, demo_selected) /\
  curr_unit demo_selected = (Ok (Some 1%nat), demo_selected) /\
  units demo_selected !! 1%nat = Some (soldier (2, 2) 1%nat) /\
  weapon_range (soldier (2, 2) 1%nat) = (1, 1) /\
  (4, 2) ∈ move_area demo_selected /\
  distance (4, 2) (5, 2) = 1 /\
  (5, 2) ∈ attack_area demo_selected /\
  ((5, 2) ∉ move_area demo_selected) /\
  (forall m, (5, 2) ∉ area demo_selected m 1 1) /\
  ~ (forall c, c ∈ attack_area demo_selected <->
       (exists m, m ∈ move_area demo_selected /\ c ∈ area demo_selected m 1 1) /\
       (c ∉ move_area demo_selected)) /\
  (forall c, c ∈ attack_area demo_selected -> c ∉ move_area demo_selected).
Proof.
  assert (Hrun : move_attack_area demo_selected = (Ok tt, demo_selected))
    by (vm_compute; reflexivity).
  assert (Hc : curr_sel demo_selected = Some (2, 2)) by (vm_compute; reflexivity).
  assert (HU : units demo_selected !! 1%nat = Some (soldier (2, 2) 1%nat))
    by (vm_compute; reflexivity).
  assert (Hmv : move_area demo_selected =
                [(2, 2); (3, 2); (1, 2); (2, 3); (2, 1); (4, 2); (3, 3); (3, 1);
                 (0, 2); (1, 3); (1, 1); (2, 4); (2, 0)])
    by (vm_compute; reflexivity).
  assert (Hin : (5, 2) ∈ attack_area demo_selected).
  { replace (attack_area demo_selected) with
      [(4, 1); (4, 3); (5, 2); (3, 4); (3, 0); (-1, 2);
       (0, 1); (0, 3); (1, 4); (1, 0); (2, 5); (2, -1)] by (vm_compute; reflexivity).
    do 2 right. left. }
  assert (Hring : forall m, (5, 2) ∉ area demo_selected m 1 1).
  { intros m. rewrite elem_of_area. intros [H _]. vm_compute in H. discriminate. }
  destruct (move_attack_area_elem demo_selected (2, 2)
              (mkTerrain ["any"%string] (Some 1%nat)) 1%nat (soldier (2, 2) 1%nat) Hc)
    as (s' & Hrun' & _ & _ & Hdisj & _);
    [vm_compute; reflexivity|reflexivity|exact HU|].
  pose proof (eq_trans (eq_sym Hrun) Hrun') as E.
  apply pair_equal_spec in E as [_ E].
  rewrite <- E in Hdisj. clear s' Hrun' E.
  split; [vm_compute; reflexivity|]. split; [exact Hrun|].
  split; [vm_compute; reflexivity|]. split; [exact HU|]. split; [reflexivity|].
  split; [rewrite Hmv; rewrite !elem_of_cons; tauto|]. split; [reflexivity|].
  split; [exact Hin|]. split; [exact (Hdisj _ Hin)|]. split; [exact Hring|].
  split; [|exact Hdisj].
  intros H. apply H in Hin as [(m & _ & Hm) _]. exact (Hring m Hm).
Qed.

(** C7: picking the soldier at (2, 2) of the 5 by 5 demo map, whose
    weapon reaches one cell, fills the attack area without duplicates
    but with the coordinates (5, 2), (-1, 2), (2, 5) and (2, -1), which
    [check_coord] refuses: [__set_attack_area] does not test the bounds
    that [area] tests. *)
Theorem attack_area_leaves_grid :
  fst (select spec_shortest_path spec_area team_is_mine (2, 2) demo) = Ok tt /\
  attack_area demo_selected =
    [(4, 1); (4, 3); (5, 2); (3, 4); (3, 0); (-1, 2);
     (0, 1); (0, 3); (1, 4); (1, 0); (2, 5); (2, -1)] /\
  (5, 2) ∈ attack_area demo_selected /\
  check_coord demo_selected (5, 2) = false /\
  (5, 2) ∉ area demo_selected (4, 2) 1 1.
Proof.
  assert (Ha : attack_area demo_selected =
               [(4, 1); (4, 3); (5, 2); (3, 4); (3, 0); (-1, 2);
                (0, 1); (0, 3); (1, 4); (1, 0); (2, 5); (2, -1)])
    by (vm_compute; reflexivity).
  split; [vm_compute; reflexivity|]. split; [exact Ha|].
  split; [rewrite Ha; do 2 right; left|].
  split; [vm_compute; reflexivity|].
  rewrite elem_of_area. intros [H _]. vm_compute in H. discriminate.
Qed.

Lemma area_is_ring_witness :
  1 <= 2 /\ 2 + 1 < w demo /\ 2 + 1 < h demo /\
  area demo (2, 2) 1 1 = [(1, 2); (2, 1); (2, 3); (3, 2)].
Proof.
  assert (Hw : 2 + 1 < w demo) by reflexivity.
  assert (Hh : 2 + 1 < h demo) by reflexivity.
  assert (H1 : 1 <= 2) by discriminate.
  split; [exact H1|]. split; [exact Hw|]. split; [exact Hh|].
  exact (proj2 (area_is_ring demo) 2 2 H1 Hw H1 Hh).
Defined.

Lemma cell_lookup_after_init_witness :
  (forall layer cell,
     layer ∈ [[mkCell 0 0 (Some (mkTile ["none"%string]))]] -> cell ∈ layer ->
     0 <= cell_x cell < 1 /\ 0 <= cell_y cell < 1) /\
  (exists t, getitem (0, 0) wall = (Ok t, wall)) /\
  getitem (1, 0) wall = (Raise KeyError, wall).
Proof.
  assert (Hcells : forall layer cell,
            layer ∈ [[mkCell 0 0 (Some (mkTile ["none"%string]))]] -> cell ∈ layer ->
            0 <= cell_x cell < 1 /\ 0 <= cell_y cell < 1).
  { intros layer cell Hl Hc. apply list_elem_of_singleton in Hl. subst layer.
    apply list_elem_of_singleton in Hc. subst cell. simpl. lia. }
  split; [exact Hcells|].
  destruct (cell_lookup_after_init 1 1 _ [] 1%nat (0, 0) Hcells) as (_ & _ & _ & _ & Hfull).
  destruct (cell_lookup_after_init 1 1 _ [] 1%nat (1, 0) Hcells) as (_ & _ & _ & Hout & _).
  split.
  - apply Hfull; [|simpl; lia].
    intros x y Hx Hy. exists [mkCell 0 0 (Some (mkTile ["none"%string]))], (mkCell 0 0 (Some (mkTile ["none"%string]))).
    split; [left|]. split; [left|]. simpl. split; [f_equal; lia|eauto].
  - apply Hout. simpl. lia.
Defined.

(** On a map whose only position carries no tile the coordinate (0, 0)
    is inside the bounds and its lookup raises [KeyError]. *)
Lemma cell_lookup_fails_inside_bounds :
  (0 <= 0 < w untiled /\ 0 <= 0 < h untiled) /\
  check_coord untiled (0, 0) = true /\
  getitem (0, 0) untiled = (Raise KeyError, untiled).
Proof.
  split; [vm_compute; repeat split; discriminate|].
  split; vm_compute; reflexivity.
Qed.

(** * Further properties *)

(** ** [neighbors] *)

Lemma distance_one (x y a b : Z) :
  distance (x, y) (a, b) = 1 <->
  (a, b) = (x + 1, y) \/ (a, b) = (x - 1, y) \/ (a, b) = (x, y + 1) \/ (a, b) = (x, y - 1).
Proof.
  unfold distance. simpl. split.
  - intros H.
    assert ((a = x + 1 /\ b = y) \/ (a = x - 1 /\ b = y) \/
            (a = x /\ b = y + 1) \/ (a = x /\ b = y - 1)) as Hc by lia.
    destruct Hc as [[-> ->]|[[-> ->]|[[-> ->]|[-> ->]]]]; auto.
  - intros [H|[H|[H|H]]]; injection H as -> ->; lia.
Qed.

Lemma neighbors_run s c :
  neighbors c s =
  if check_coord s c
  then (Ok (List.filter (check_coord s)
              [(c.1 + 1, c.2); (c.1 - 1, c.2); (c.1, c.2 + 1); (c.1, c.2 - 1)]), s)
  else (Raise (ValueError InvalidCoordinates), s).
Proof.
  destruct c as [x y]. unfold neighbors, mbind, M_bind, bind, get.
  destruct (check_coord s (x, y)); reflexivity.
Qed.

Lemma four_NoDup (x y : Z) :
  List.NoDup [(x + 1, y); (x - 1, y); (x, y + 1); (x, y - 1)].
Proof.
  repeat constructor; simpl; intros H;
    repeat (destruct H as [H|H]; [injection H; lia|]); exact H.
Qed.

(** X1: [neighbors] raises the "Invalid coordinates" [ValueError] on a
    coordinate outside the bounds, the map untouched; on a coordinate
    inside them it returns, without duplicates and at most four, exactly
    the coordinates inside the bounds at Manhattan distance one. *)
Theorem neighbors_are_adjacent_cells s c :
  (check_coord s c = false ->
   neighbors c s = (Raise (ValueError InvalidCoordinates), s)) /\
  (check_coord s c = true ->
   exists ns,
     neighbors c s = (Ok ns, s) /\ NoDup ns /\ (length ns <= 4)%nat /\
     forall c', c' ∈ ns <-> check_coord s c' = true /\ distance c c' = 1).
Proof.
  rewrite neighbors_run. split; intros Hc; rewrite Hc; [reflexivity|].
  eexists. split; [reflexivity|]. destruct c as [x y]. cbn [fst snd].
  split; [|split].
  - apply NoDup_ListNoDup, List.NoDup_filter, four_NoDup.
  - etransitivity; [apply List.filter_length_le|]. simpl. lia.
  - intros [a b]. rewrite list_elem_of_In, List.filter_In, distance_one.
    simpl. intuition congruence.
Qed.

(** X2: on a coordinate inside the bounds [neighbors] and the ring
    [area(c, 1, 1)] hold the same coordinates. *)
Theorem neighbors_same_as_ring s c :
  check_coord s c = true ->
  exists ns, neighbors c s = (Ok ns, s) /\ forall c', c' ∈ ns <-> c' ∈ area s c 1 1.
Proof.
  intros Hc. rewrite neighbors_run, Hc. eexists. split; [reflexivity|].
  destruct c as [x y]. intros [a b].
  rewrite elem_of_area, list_elem_of_In, List.filter_In.
  assert (distance (x, y) (a, b) = 1 <-> 1 <= distance (x, y) (a, b) <= 1) as <- by lia.
  rewrite distance_one. simpl. intuition congruence.
Qed.

(** ** What an operation leaves alone, whatever its outcome *)

Lemma bind_inv {A B} (m : M A) (k : A -> M B) s r s' :
  (m ≫= k) s = (r, s') ->
  (exists e, m s = (Raise e, s') /\ r = Raise e) \/
  (exists a s1, m s = (Ok a, s1) /\ k a s1 = (r, s')).
Proof.
  unfold mbind, M_bind, bind. destruct (m s) as [[a|e] s1]; intros H.
  - right. eauto.
  - left. injection H as <- <-. eauto.
Qed.

#[global] Instance same_board_preorder : PreOrder same_board.
Proof.
  split.
  - intros s. repeat split.
  - intros a b c (H1 & H2 & H3 & H4 & H5) (G1 & G2 & G3 & G4 & G5).
    repeat split; congruence.
Qed.

#[global] Instance only_areas_preorder : PreOrder only_areas.
Proof.
  split.
  - intros s. repeat split.
  - intros a b c (H0 & H1 & H2 & H3 & H4) (G0 & G1 & G2 & G3 & G4).
    split; [now transitivity b|]. repeat split; congruence.
Qed.

#[global] Instance same_ground_preorder : PreOrder same_ground.
Proof.
  split.
  - intros s. repeat split.
  - intros a b c (H1 & H2 & H3 & H4) (G1 & G2 & G3 & G4).
    repeat split; try congruence; try (intros k; now rewrite G4).
Qed.

Lemma same_board_ground s s' : same_board s s' -> same_ground s s'.
Proof. intros (H1 & H2 & H3 & H4 & _). repeat split; try assumption. now rewrite H4. Qed.

Section Preserve.

Context (R : TileMap -> TileMap -> Prop) `{!PreOrder R}.

Lemma preserves_ret {A} (a : A) : preserves R (ret a).
Proof. intros s. reflexivity. Qed.

Lemma preserves_raise {A} e : preserves R (@raise A e).
Proof. intros s. reflexivity. Qed.

Lemma preserves_get : preserves R get.
Proof. intros s. reflexivity. Qed.

Lemma preserves_modify f : (forall s, R s (f s)) -> preserves R (modify f).
Proof. intros H s. apply H. Qed.

Lemma preserves_bind {A B} (m : M A) (k : A -> M B) :
  preserves R m -> (forall a, preserves R (k a)) -> preserves R (m ≫= k).
Proof.
  intros Hm Hk s. unfold mbind, M_bind, bind. specialize (Hm s).
  destruct (m s) as [[a|e] s1]; simpl in *; [|exact Hm].
  transitivity s1; [exact Hm|apply Hk].
Qed.

Lemma preserves_try_except {A} (m : M A) e handler :
  preserves R m -> preserves R handler -> preserves R (try_except m e handler).
Proof.
  intros Hm Hh s. unfold try_except. specialize (Hm s).
  destruct (m s) as [[a|e'] s1]; simpl in *; [exact Hm|].
  destruct (decide (e' = e)); [|exact Hm].
  transitivity s1; [exact Hm|apply Hh].
Qed.

Lemma preserves_for_each {A} (l : list A) body :
  (forall a, preserves R (body a)) -> preserves R (for_each l body).
Proof.
  intros Hb. induction l as [|a l IH]; simpl; [apply preserves_ret|].
  apply preserves_bind; [apply Hb|intros _; exact IH].
Qed.

Lemma preserves_deref u : preserves R (deref u).
Proof. intros s. unfold deref. destruct (units s !! u); reflexivity. Qed.

Lemma preserves_terrain_at k : preserves R (terrain_at k).
Proof. intros s. unfold terrain_at. destruct (k ≫= _); reflexivity. Qed.

End Preserve.

Ltac frame :=
  repeat first
    [ apply preserves_ret; exact _
    | apply preserves_raise; exact _
    | apply preserves_get; exact _
    | apply preserves_deref; exact _
    | apply preserves_terrain_at; exact _
    | apply preserves_bind; [exact _| |intros ?]
    | apply preserves_try_except; [exact _| |]
    | apply preserves_for_each; [exact _|intros ?]
    | apply preserves_modify; intros ?; repeat split; reflexivity
    | match goal with
      | |- preserves _ (match ?x with _ => _ end) => destruct x
      end
    | assumption ].

Section PreserveOps.

Context (R : TileMap -> TileMap -> Prop) `{!PreOrder R}.

Lemma preserves_get_unit c : preserves R (get_unit c).
Proof. unfold get_unit. frame. Qed.

Lemma preserves_curr_unit : preserves R curr_unit.
Proof. unfold curr_unit. frame. Qed.

Lemma preserves_prev_unit : preserves R prev_unit.
Proof. unfold prev_unit. frame. Qed.

Lemma preserves_are_enemies enemies u1 u2 : preserves R (are_enemies enemies u1 u2).
Proof. unfold are_enemies. frame. Qed.

Lemma preserves_is_obstacle enemies c u : preserves R (is_obstacle enemies c u).
Proof. unfold is_obstacle, getitem. frame. apply preserves_are_enemies. Qed.

Lemma preserves_can_selection_move is_mine : preserves R (can_selection_move is_mine).
Proof. unfold can_selection_move. frame; apply preserves_prev_unit. Qed.

End PreserveOps.

Lemma only_areas_move_area a s : only_areas s (with_move_area a s).
Proof. repeat split. Qed.

Lemma only_areas_attack_area a s : only_areas s (with_attack_area a s).
Proof. repeat split. Qed.

Lemma update_move_area_only_areas path_area : preserves only_areas (update_move_area path_area).
Proof. unfold update_move_area. frame; apply preserves_curr_unit, _. Qed.

Lemma set_attack_area_only_areas c mn mx : preserves only_areas (set_attack_area c mn mx).
Proof. unfold set_attack_area. frame. Qed.

Lemma move_attack_area_only_areas : preserves only_areas move_attack_area.
Proof.
  unfold move_attack_area. frame; first [apply preserves_curr_unit, _ | apply set_attack_area_only_areas].
Qed.

Lemma still_attack_area_only_areas : preserves only_areas still_attack_area.
Proof.
  unfold still_attack_area. frame; first [apply preserves_curr_unit, _ | apply set_attack_area_only_areas].
Qed.

(** ** The outcomes of [move] *)

Lemma with_return_path_id s : with_return_path (return_path s) s = s.
Proof. now destruct s. Qed.

Lemma consistent_board s s' :
  terrains s' = terrains s -> units s' = units s -> consistent s -> consistent s'.
Proof. unfold consistent. intros -> ->. auto. Qed.

Lemma placed_board s s' :
  terrains s' = terrains s -> units s' = units s -> placed s -> placed s'.
Proof. unfold placed. intros -> ->. auto. Qed.

Section MoveOutcomes.

Variable shortest_path : TileMap -> Coordinate -> Coordinate -> Z -> list Coordinate.

(** Every run of [move]: nothing happens, or the unit is carried to the
    free cell [d], or the unit's own cell is missing and only the return
    path has been written. *)
Lemma move_cases s u d res s' :
  move shortest_path u d s = (res, s') ->
  s' = s \/
  exists U td p,
    units s !! u = Some U /\ coord U ≠ d /\
    terrains s !! d = Some td /\ terrain_unit td = None /\
    p = shortest_path s (coord U) d (movement U) /\ p ≠ [] /\
    ((exists ta, terrains s !! coord U = Some ta /\ res = Ok tt /\
                 s' = moved u U d ta td p s) \/
     (terrains s !! coord U = None /\ res = Raise KeyError /\
      s' = with_return_path (Some (rev (removelast p) ++ [coord U])) s)).
Proof.
  intros Hrun.
  destruct (units s !! u) as [U|] eqn:HU.
  - destruct (decide (coord U = d)) as [Heq|Hne].
    + left. unfold move in Hrun.
      rewrite (bind_Ok _ _ _ _ _ (deref_Ok _ _ _ HU)) in Hrun.
      destruct (decide (coord U ≠ d)) as [Hne|_]; [contradiction|].
      now injection Hrun as _ <-.
    + destruct (terrains s !! d) as [td|] eqn:Hd.
      * destruct (terrain_unit td) as [o|] eqn:Ho.
        -- left. unfold move in Hrun.
           rewrite (bind_Ok _ _ _ _ _ (deref_Ok _ _ _ HU)) in Hrun.
           destruct (decide (coord U ≠ d)) as [_|]; [|contradiction].
           rewrite (bind_Ok _ _ _ _ _ (get_unit_Ok _ _ _ Hd)), Ho in Hrun.
           now injection Hrun as _ <-.
        -- rewrite (move_run shortest_path s u U d td HU Hne Hd Ho) in Hrun.
           destruct (shortest_path s (coord U) d (movement U)) as [|c0 p0] eqn:Hp.
           ++ left. now injection Hrun as _ <-.
           ++ right. exists U, td, (c0 :: p0). rewrite Hp.
              repeat (split; [first [reflexivity|assumption|discriminate]|]).
              destruct (terrains s !! coord U) as [ta|] eqn:Ha;
                injection Hrun as <- <-; [left; eauto|right; auto].
      * left. unfold move in Hrun.
        rewrite (bind_Ok _ _ _ _ _ (deref_Ok _ _ _ HU)) in Hrun.
        destruct (decide (coord U ≠ d)) as [_|]; [|contradiction].
        unfold get_unit in Hrun.
        rewrite (bind_Raise _ _ _ _ _ (bind_Raise _ _ _ _ _ (terrain_at_missing _ _ Hd)))
          in Hrun.
        now injection Hrun as _ <-.
  - left. unfold move, mbind, M_bind, bind, deref in Hrun. rewrite HU in Hrun.
    now injection Hrun as _ <-.
Qed.

(** X3: a [move] that raises has changed nothing but, at most, the
    stored return path: the terrains with their occupants, the units,
    the selections and the areas are those before the call; and unless
    the path was empty ([IndexError]) or the cell of the unit's own
    coordinate is missing, it has changed nothing at all. *)
Theorem move_failure_changes_no_occupancy s u d e s' :
  move shortest_path u d s = (Raise e, s') ->
  (exists rp, s' = with_return_path rp s) /\
  (forall U, units s !! u = Some U -> is_Some (terrains s !! coord U) ->
             e ≠ IndexError -> s' = s).
Proof.
  intros Hrun. destruct (move_cases s u d _ s' Hrun) as [->|Hcase].
  - split; [|reflexivity]. exists (return_path s). now rewrite with_return_path_id.
  - destruct Hcase as (U & td & p & HU & _ & _ & _ & _ & _ & [(ta & _ & H & _)|(Ha & _ & ->)]);
      [discriminate|].
    split; [eauto|]. intros U' HU' [ta Hta]. congruence.
Qed.

Lemma moved_same_ground u U d ta td p s :
  terrains s !! coord U = Some ta -> terrains s !! d = Some td ->
  same_ground s (moved u U d ta td p s).
Proof.
  intros Ha Hd. repeat split. intros c. cbn.
  destruct (decide (c = d)) as [->|Hcd]; [now rewrite lookup_insert_eq, Hd|].
  rewrite lookup_insert_ne by congruence.
  destruct (decide (c = coord U)) as [->|Hca]; [now rewrite lookup_insert_eq, Ha|].
  now rewrite lookup_insert_ne by congruence.
Qed.

Lemma moved_consistent u U d ta td p s :
  units s !! u = Some U -> consistent s -> consistent (moved u U d ta td p s).
Proof.
  intros HU Hs c t r Hc Hr. cbn in Hc |- *.
  destruct (decide (c = d)) as [->|Hcd].
  - rewrite lookup_insert_eq in Hc. injection Hc as <-. cbn in Hr. injection Hr as <-.
    rewrite lookup_insert_eq. eauto.
  - rewrite lookup_insert_ne in Hc by congruence.
    destruct (decide (c = coord U)) as [->|Hca].
    + rewrite lookup_insert_eq in Hc. injection Hc as <-. discriminate.
    + rewrite lookup_insert_ne in Hc by congruence.
      destruct (Hs c t r Hc Hr) as (R & HR & Hcoord).
      destruct (decide (r = u)) as [->|Hru]; [congruence|].
      rewrite lookup_insert_ne by congruence. eauto.
Qed.

Lemma moved_placed u U d ta td p s :
  units s !! u = Some U -> coord U ≠ d ->
  terrains s !! d = Some td -> terrain_unit td = None ->
  placed s -> placed (moved u U d ta td p s).
Proof.
  intros HU Hne Hd Hfree Hs r R HR. cbn in HR |- *.
  destruct (decide (r = u)) as [->|Hru].
  - rewrite lookup_insert_eq in HR. injection HR as <-. cbn.
    rewrite lookup_insert_eq. eauto.
  - rewrite lookup_insert_ne in HR by congruence.
    destruct (Hs r R HR) as (t & Ht & Htr).
    assert (coord R ≠ d) by (intros E; rewrite E in Ht; congruence).
    assert (coord R ≠ coord U).
    { intros E. destruct (Hs u U HU) as (t' & Ht' & Htu). rewrite E in Ht. congruence. }
    exists t. now rewrite !lookup_insert_ne by congruence.
Qed.

Lemma move_invariants s u d res s' :
  move shortest_path u d s = (res, s') ->
  same_ground s s' /\
  (consistent s -> consistent s') /\
  (placed s -> placed s').
Proof.
  intros Hrun. destruct (move_cases s u d _ s' Hrun) as [->|Hcase].
  - split; [reflexivity|auto].
  - destruct Hcase as (U & td & p & HU & Hne & Hd & Hfree & _ & _ &
                       [(ta & Ha & _ & ->)|(Ha & _ & ->)]).
    + split; [now apply moved_same_ground|].
      split; [now apply moved_consistent|now apply moved_placed].
    + split; [repeat split|]. split; [apply consistent_board|apply placed_board]; reflexivity.
Qed.

Lemma move_keeps_selection s u d res s' :
  move shortest_path u d s = (res, s') ->
  prev_sel s' = prev_sel s /\ curr_sel s' = curr_sel s /\
  move_area s' = move_area s /\ attack_area s' = attack_area s /\ arrow s' = arrow s.
Proof.
  intros Hrun. destruct (move_cases s u d _ s' Hrun) as [->|Hcase]; [repeat split|].
  destruct Hcase as (U & td & p & _ & _ & _ & _ & _ & _ &
                     [(ta & _ & _ & ->)|(_ & _ & ->)]); repeat split.
Qed.

(** X4: whatever its outcome, [move] keeps the ground (extents, cells
    and their allowed traversal), keeps every occupant's coordinate equal
    to its cell when that held before, keeps every unit on the cell of
    its coordinate when that held before, and leaves the selections and
    the two areas as they were. *)
Theorem move_keeps_invariants s u d res s' :
  move shortest_path u d s = (res, s') ->
  same_ground s s' /\
  (consistent s -> consistent s') /\
  (placed s -> placed s') /\
  prev_sel s' = prev_sel s /\ curr_sel s' = curr_sel s /\
  move_area s' = move_area s /\ attack_area s' = attack_area s.
Proof.
  intros Hrun.
  destruct (move_invariants s u d res s' Hrun) as (Hg & Hc & Hp).
  destruct (move_keeps_selection s u d res s' Hrun) as (H1 & H2 & H3 & H4 & _).
  auto 10.
Qed.

End MoveOutcomes.

(** ** The outcomes of [select] *)

Lemma curr_unit_run s : curr_unit s = (Ok (unit_at s (curr_sel s)), s).
Proof.
  unfold curr_unit, unit_at, mbind, M_bind, bind, get, try_except, terrain_at.
  destruct (curr_sel s) as [c|]; simpl; [|reflexivity].
  destruct (terrains s !! c); reflexivity.
Qed.

Lemma prev_unit_run s : prev_unit s = (Ok (unit_at s (prev_sel s)), s).
Proof.
  unfold prev_unit, unit_at, mbind, M_bind, bind, get, try_except, terrain_at.
  destruct (prev_sel s) as [c|]; simpl; [|reflexivity].
  destruct (terrains s !! c); reflexivity.
Qed.

Lemma can_selection_move_inv is_mine s s' :
  can_selection_move is_mine s = (Ok true, s') ->
  s' = s /\
  exists p U c,
    unit_at s (prev_sel s) = Some p /\ units s !! p = Some U /\
    played U = false /\ is_mine (active_team s) U = true /\
    curr_sel s = Some c /\ c ∈ move_area s.
Proof.
  unfold can_selection_move.
  unfold mbind at 1, M_bind at 1, bind at 1, get at 1.
  rewrite (bind_Ok _ _ _ _ _ (prev_unit_run s)).
  destruct (unit_at s (prev_sel s)) as [p|]; [|discriminate].
  unfold mbind, M_bind, bind, deref. destruct (units s !! p) as [U|] eqn:HU; [|discriminate].
  unfold ret. intros [= H <-]. split; [reflexivity|].
  apply andb_true_iff in H as [H Hin]. apply andb_true_iff in H as [Hp Hm].
  destruct (curr_sel s) as [c|]; [|discriminate].
  exists p, U, c. apply negb_true_iff in Hp. apply bool_decide_eq_true in Hin.
  repeat split; assumption.
Qed.

Section SelectOutcomes.

Variable shortest_path : TileMap -> Coordinate -> Coordinate -> Z -> list Coordinate.
Variable path_area : TileMap -> Coordinate -> Z -> list Coordinate.
Variable is_mine : nat -> Unit -> bool.

Lemma show_areas_only_areas :
  preserves only_areas (update_move_area path_area ;; move_attack_area).
Proof.
  apply preserves_bind; [exact _|apply update_move_area_only_areas|].
  intros _. apply move_attack_area_only_areas.
Qed.

(** Every run of [select]: it has shown or cleared areas for the new
    pick, or started afresh from an empty selection, or called [move]
    for the unit picked before. *)
Lemma select_cases c s res s' :
  select shortest_path path_area is_mine c s = (res, s') ->
  only_areas (picked c s) s' \/
  only_areas (with_curr_sel (Some c) (unselected (picked c s))) s' \/
  exists a p U res',
    curr_sel s = Some a /\ unit_at s (Some a) = Some p /\ unit_at s (Some c) = None /\
    units s !! p = Some U /\ played U = false /\ is_mine (active_team s) U = true /\
    c ∈ move_area s /\
    move shortest_path p c (picked c s) = (res', s') /\
    (res = Ok tt <-> res' = Ok tt).
Proof.
  unfold select.
  unfold mbind at 1, M_bind at 1, bind at 1, get at 1.
  unfold mbind at 1, M_bind at 1, bind at 1, modify at 1.
  unfold mbind at 1, M_bind at 1, bind at 1, modify at 1.
  unfold mbind at 1, M_bind at 1, bind at 1, modify at 1.
  change (with_arrow [] (with_curr_sel (Some c) (with_prev_sel (curr_sel s) s)))
    with (picked c s).
  destruct (curr_sel s) as [a|] eqn:Hcurr.
  - rewrite (bind_Ok _ _ _ _ _ (prev_unit_run (picked c s))).
    rewrite (bind_Ok _ _ _ _ _ (curr_unit_run (picked c s))).
    change (unit_at (picked c s) (prev_sel (picked c s))) with (unit_at s (curr_sel s)).
    change (unit_at (picked c s) (curr_sel (picked c s))) with (unit_at s (Some c)).
    rewrite Hcurr.
    assert (Htail : forall pu,
      (can_selection_move is_mine ≫= fun can : bool =>
         if can then
           match pu with
           | Some p => move shortest_path p c ;; action_menu
           | None => raise AttributeError
           end
         else
           reset_selection ;; modify (with_curr_sel (Some c)) ;;
           curr_unit ≫= fun cu' =>
             match cu' with
             | Some r =>
                 deref r ≫= fun U =>
                   if played U then ret tt
                   else update_move_area path_area ;; move_attack_area
             | None => ret tt
             end) (picked c s) = (res, s') ->
      pu = unit_at s (Some a) -> unit_at s (Some c) = None \/ pu = None ->
      only_areas (picked c s) s' \/
      only_areas (with_curr_sel (Some c) (unselected (picked c s))) s' \/
      exists a0 p U res',
        Some a = Some a0 /\ unit_at s (Some a0) = Some p /\ unit_at s (Some c) = None /\
        units s !! p = Some U /\ played U = false /\ is_mine (active_team s) U = true /\
        c ∈ move_area s /\
        move shortest_path p c (picked c s) = (res', s') /\
        (res = Ok tt <-> res' = Ok tt)).
    { intros pu Hrun Hpu Hnone. apply bind_inv in Hrun as [(e & Hcan & ->)|(can & s1 & Hcan & Hrun)].
      - left. pose proof (preserves_can_selection_move eq is_mine (picked c s)) as Hp.
        rewrite Hcan in Hp. simpl in Hp. subst s'. reflexivity.
      - destruct can.
        + apply can_selection_move_inv in Hcan as (-> & p & U & c' & Hp & HU & Hpl & Hm & Hc' & Hin).
          change (unit_at (picked c s) (prev_sel (picked c s))) with (unit_at s (curr_sel s)) in Hp.
          rewrite Hcurr in Hp. injection Hc' as <-.
          destruct Hnone as [Hnone|Hnone]; [|congruence].
          rewrite Hpu, Hp in Hrun.
          right. right.
          destruct (move shortest_path p c (picked c s)) as [r1 s1] eqn:Hmove.
          exists a, p, U, r1.
          unfold mbind, M_bind, bind, action_menu, ret in Hrun. rewrite Hmove in Hrun.
          destruct r1 as [[]|e]; injection Hrun as <- <-;
            (repeat (split; [first [reflexivity|assumption]|])); split; congruence.
        + right. left.
          pose proof (preserves_can_selection_move eq is_mine (picked c s)) as Hp.
          rewrite Hcan in Hp. simpl in Hp. subst s1.
          rewrite (bind_Ok _ _ _ _ _ (reset_selection_run (picked c s))) in Hrun.
          unfold mbind at 1, M_bind at 1, bind at 1, modify at 1 in Hrun.
          match type of Hrun with
          | ?tail ?st = _ =>
              assert (Ht : preserves only_areas tail);
                [|specialize (Ht st); rewrite Hrun in Ht; exact Ht]
          end.
          apply preserves_bind; [exact _|apply preserves_curr_unit, _|].
          intros [r|]; [|apply preserves_ret, _].
          apply preserves_bind; [exact _|apply preserves_deref, _|].
          intros U. destruct (played U); [apply preserves_ret, _|apply show_areas_only_areas]. }
    destruct (unit_at s (Some a)) as [p|] eqn:Hp; [destruct (unit_at s (Some c)) as [q|] eqn:Hq|].
    + intros Hrun. left.
      match type of Hrun with
      | ?tail ?st = _ =>
          assert (Ht : preserves only_areas tail);
            [|specialize (Ht st); rewrite Hrun in Ht; exact Ht]
      end.
      apply preserves_bind; [exact _|apply preserves_deref, _|].
      intros P. destruct (_ && _); [apply preserves_ret, _|apply show_areas_only_areas].
    + intros Hrun. apply (Htail (Some p)); auto.
    + intros Hrun. apply (Htail None); auto.
  - intros Hrun. left.
    match type of Hrun with
    | ?tail ?st = _ =>
        assert (Ht : preserves only_areas tail);
          [|specialize (Ht st); rewrite Hrun in Ht; exact Ht]
    end.
    apply preserves_bind; [exact _|apply preserves_get_unit, _|].
    intros [r|].
    + apply preserves_bind; [exact _|apply preserves_deref, _|].
      intros U. destruct (played U); [|apply show_areas_only_areas].
      apply preserves_bind; [exact _| |intros _];
        apply preserves_modify; intros x; repeat split.
    + apply preserves_bind; [exact _| |intros _];
        apply preserves_modify; intros x; repeat split.
Qed.

End SelectOutcomes.

Section SelectInvariants.

Variable shortest_path : TileMap -> Coordinate -> Coordinate -> Z -> list Coordinate.
Variable path_area : TileMap -> Coordinate -> Z -> list Coordinate.
Variable is_mine : nat -> Unit -> bool.

Lemma only_areas_picked c s s' : only_areas (picked c s) s' -> same_board s s'.
Proof. intros [H _]. exact H. Qed.

Lemma only_areas_restarted c s s' :
  only_areas (with_curr_sel (Some c) (unselected (picked c s))) s' -> same_board s s'.
Proof. intros [H _]. exact H. Qed.

Lemma same_board_invariants s s' :
  same_board s s' ->
  same_ground s s' /\ (consistent s -> consistent s') /\ (placed s -> placed s').
Proof.
  intros Hb. split; [now apply same_board_ground|].
  destruct Hb as (_ & _ & _ & Ht & Hu).
  split; [now apply consistent_board|now apply placed_board].
Qed.

(** X5: whatever its outcome, [select] keeps the ground, keeps every
    occupant's coordinate equal to its cell when that held before, and
    keeps every unit on the cell of its coordinate when that held
    before. *)
Theorem select_keeps_invariants c s res s' :
  select shortest_path path_area is_mine c s = (res, s') ->
  same_ground s s' /\
  (consistent s -> consistent s') /\
  (placed s -> placed s').
Proof.
  intros Hrun.
  destruct (select_cases shortest_path path_area is_mine c s res s' Hrun)
    as [H|[H|(a & p & U & res' & _ & _ & _ & _ & _ & _ & _ & Hmove & _)]].
  - apply same_board_invariants, (only_areas_picked c), H.
  - apply same_board_invariants, (only_areas_restarted c), H.
  - destruct (move_invariants shortest_path (picked c s) p c res' s' Hmove)
      as (Hg & Hc & Hp).
    split; [exact Hg|]. split; intros Hs.
    + apply Hc. revert Hs. now apply consistent_board.
    + apply Hp. revert Hs. now apply placed_board.
Qed.

(** X6: [select] changes the board (terrains, occupants, units) only
    when a unit was picked before that has not played and is of the
    active team, and the new pick is a coordinate of the move area that
    holds no unit; in every other run the board is the one before. *)
Theorem select_moves_only_own_unit c s res s' :
  select shortest_path path_area is_mine c s = (res, s') ->
  same_board s s' \/
  exists a p U,
    curr_sel s = Some a /\ unit_at s (Some a) = Some p /\ units s !! p = Some U /\
    played U = false /\ is_mine (active_team s) U = true /\
    c ∈ move_area s /\ unit_at s (Some c) = None.
Proof.
  intros Hrun.
  destruct (select_cases shortest_path path_area is_mine c s res s' Hrun)
    as [H|[H|(a & p & U & res' & Ha & Hp & Hc & HU & Hpl & Hm & Hin & _)]].
  - left. apply (only_areas_picked c), H.
  - left. apply (only_areas_restarted c), H.
  - right. exists a, p, U. auto 10.
Qed.

(** X7: whatever its outcome, also when it raises, [select] leaves the
    picked coordinate as current selection and no arrow path; the
    previous selection is the former current one, or none. *)
Theorem select_shifts_selection c s res s' :
  select shortest_path path_area is_mine c s = (res, s') ->
  curr_sel s' = Some c /\ arrow s' = [] /\
  (prev_sel s' = curr_sel s \/ prev_sel s' = None).
Proof.
  intros Hrun.
  destruct (select_cases shortest_path path_area is_mine c s res s' Hrun)
    as [H|[H|(a & p & U & res' & _ & _ & _ & _ & _ & _ & _ & Hmove & _)]].
  - destruct H as (_ & Hp & Hc & Ha & _). auto.
  - destruct H as (_ & Hp & Hc & Ha & _). auto.
  - destruct (move_keeps_selection shortest_path (picked c s) p c res' s' Hmove)
      as (Hp & Hc & _ & _ & Ha). auto.
Qed.

End SelectInvariants.

(** ** The outcomes of [move_undo] *)

Lemma set_terrain_unit_run k o s :
  set_terrain_unit k o s =
  match k with
  | Some c =>
      match terrains s !! c with
      | Some t => (Ok tt, with_terrains (<[c := mkTerrain (allowed t) o]> (terrains s)) s)
      | None => (Raise KeyError, s)
      end
  | None => (Raise KeyError, s)
  end.
Proof.
  unfold set_terrain_unit, mbind, M_bind, bind, terrain_at.
  destruct k as [c|]; simpl; [|reflexivity]. destruct (terrains s !! c); reflexivity.
Qed.

(** What [self.terrains[c].unit = o] does to the invariants. *)
Lemma put_same_ground s c t o :
  terrains s !! c = Some t ->
  same_ground s (with_terrains (<[c := mkTerrain (allowed t) o]> (terrains s)) s).
Proof.
  intros Ht. repeat split. intros k. cbn.
  destruct (decide (k = c)) as [->|Hk]; [now rewrite lookup_insert_eq, Ht|].
  now rewrite lookup_insert_ne by congruence.
Qed.

Lemma clear_consistent s c t :
  consistent s ->
  consistent (with_terrains (<[c := mkTerrain (allowed t) None]> (terrains s)) s).
Proof.
  intros Hs k t' r Hk Hr. cbn in Hk |- *.
  destruct (decide (k = c)) as [->|Hkc].
  - rewrite lookup_insert_eq in Hk. injection Hk as <-. discriminate.
  - rewrite lookup_insert_ne in Hk by congruence. eauto.
Qed.

Section UndoOutcomes.

Variable shortest_path : TileMap -> Coordinate -> Coordinate -> Z -> list Coordinate.

(** The first step of the guarded block of [move_undo]: the return
    path is replayed and dropped. *)
Lemma replay_cases (u : option uref) (k : option Coordinate) rp r s s' :
  (match rp with
   | Some (c :: p) =>
       move_animation shortest_path u k (Some (c :: p)) ;; modify (with_return_path None)
   | _ => ret tt
   end) s = (r, s') ->
  (s' = s /\ (r = Ok tt -> rp = None \/ rp = Some [])) \/
  (r = Ok tt /\ s' = with_return_path None s).
Proof.
  destruct rp as [[|c p]|].
  - intros [= <- <-]. auto.
  - unfold move_animation, mbind, M_bind, bind, mret, M_ret, ret, raise, modify.
    destruct u; intros [= <- <-]; [right|left]; split; auto. discriminate.
  - intros [= <- <-]. auto.
Qed.

(** X8: whatever its outcome, [move_undo] keeps the ground and keeps
    every occupant's coordinate equal to its cell when that held
    before. *)
Theorem move_undo_keeps_consistency s res s' :
  move_undo shortest_path s = (res, s') ->
  same_ground s s' /\ (consistent s -> consistent s').
Proof.
  unfold move_undo.
  unfold mbind at 1, M_bind at 1, bind at 1, get at 1.
  intros Hrun. apply bind_inv in Hrun.
  assert (Hreset : forall x r y, reset_selection x = (r, y) ->
            same_ground x y /\ (consistent x -> consistent y)).
  { intros x r y. rewrite reset_selection_run. intros [= _ <-].
    split; [repeat split|]. now apply consistent_board. }
  assert (Hblock : forall ro x,
    (if decide (curr_sel s ≠ prev_sel s) then
       curr_unit ≫= fun u =>
         match return_path s with
         | Some (c :: p) =>
             move_animation shortest_path u (prev_sel s) (Some (c :: p)) ;;
             modify (with_return_path None)
         | _ => ret tt
         end ;;
         set_terrain_unit (prev_sel s) u ;;
         set_terrain_unit (curr_sel s) None ;;
         match u, prev_sel s with
         | Some r, Some c => Unit_move r c
         | None, _ => raise AttributeError
         | _, None => raise TypeError
         end
     else ret tt) s = (ro, x) ->
    same_ground s x /\ (consistent s -> consistent x)).
  { intros ro x. destruct (decide (curr_sel s ≠ prev_sel s)) as [Hne|_];
      [|intros [= _ <-]; split; [reflexivity|auto]].
    rewrite (bind_Ok _ _ _ _ _ (curr_unit_run s)).
    set (u := unit_at s (curr_sel s)). intros Hb.
    apply bind_inv in Hb as [(e & Hb & ->)|([] & s1 & Hb & Hrest)].
    { apply replay_cases in Hb as [[-> _]|[H _]]; [|discriminate].
      split; [reflexivity|auto]. }
    assert (Hs1 : s1 = s \/ s1 = with_return_path None s)
      by (apply replay_cases in Hb as [[-> _]|[_ ->]]; auto).
    assert (Hrp : s1 = s -> return_path s = None \/ return_path s = Some []).
    { intros ->. apply replay_cases in Hb as [[_ H]|[_ H]]; [auto|].
      destruct (return_path s) as [[|? ?]|] eqn:E; auto.
      exfalso. apply (f_equal return_path) in H. cbn in H. congruence. }
    assert (Ht1 : terrains s1 = terrains s) by (destruct Hs1 as [->| ->]; reflexivity).
    assert (Hu1 : units s1 = units s) by (destruct Hs1 as [->| ->]; reflexivity).
    assert (Hg1 : same_ground s s1) by (destruct Hs1 as [->| ->]; repeat split).
    assert (Hc1 : consistent s -> consistent s1) by (now apply consistent_board).
    apply bind_inv in Hrest as [(e & Hput & ->)|([] & s2 & Hput & Hrest)];
      rewrite set_terrain_unit_run in Hput.
    { destruct (prev_sel s) as [a|]; [destruct (terrains s1 !! a)|];
        try discriminate; injection Hput as _ <-; auto. }
    destruct (prev_sel s) as [a|] eqn:Hprev; [|discriminate].
    destruct (terrains s1 !! a) as [ta|] eqn:Ha; [|discriminate].
    injection Hput as <-.
    set (s2 := with_terrains (<[a := mkTerrain (allowed ta) u]> (terrains s1)) s1) in *.
    assert (Hg2 : same_ground s s2)
      by (transitivity s1; [exact Hg1|now apply put_same_ground]).
    apply bind_inv in Hrest as [(e & Hput & ->)|([] & s3 & Hput & Hrest)];
      rewrite set_terrain_unit_run in Hput.
    { (* the current selection is no cell, so nobody stands on it *)
      assert (Hu : u = None).
      { unfold u, unit_at. destruct (curr_sel s) as [b|]; [|reflexivity].
        assert (terrains s !! b = None) as ->; [|reflexivity].
        destruct (decide (b = a)) as [->|Hba]; [congruence|].
        rewrite <- Ht1. cbn in Hput. rewrite lookup_insert_ne in Hput by congruence.
        destruct (terrains s1 !! b); [discriminate|reflexivity]. }
      assert (x = s2) as ->.
      { destruct (curr_sel s) as [b|]; [destruct (terrains s2 !! b)|];
          try discriminate; injection Hput as _ <-; reflexivity. }
      split; [exact Hg2|]. intros Hs. unfold s2. rewrite Hu.
      now apply clear_consistent, Hc1. }
    destruct (curr_sel s) as [b|] eqn:Hcurr; [|discriminate].
    assert (Hab : a ≠ b) by congruence.
    assert (Hb2 : terrains s2 !! b = terrains s !! b)
      by (cbn; rewrite lookup_insert_ne by congruence; now rewrite Ht1).
    destruct (terrains s2 !! b) as [tb|] eqn:Htb; [|discriminate].
    injection Hput as <-.
    set (s3 := with_terrains (<[b := mkTerrain (allowed tb) None]> (terrains s2)) s2) in *.
    assert (Hg3 : same_ground s s3)
      by (transitivity s2; [exact Hg2|now apply put_same_ground]).
    assert (Hub : u = terrain_unit tb) by (unfold u, unit_at; now rewrite <- Hb2).
    destruct u as [r|] eqn:Hu.
    - destruct (units s !! r) as [U|] eqn:HU.
      + match type of Hrest with
        | Unit_move _ _ ?st = _ =>
            rewrite (Unit_move_Ok st r U a) in Hrest by (cbn; now rewrite Hu1)
        end.
        injection Hrest as _ <-. split.
        * destruct Hg3 as (G1 & G2 & G3 & G4). repeat split; assumption.
        * intros Hs k t q Hk Hq. cbn in Hk |- *.
          destruct (decide (k = b)) as [->|Hkb].
          { rewrite lookup_insert_eq in Hk. injection Hk as <-. discriminate. }
          rewrite lookup_insert_ne in Hk by congruence.
          destruct (decide (k = a)) as [->|Hka].
          { rewrite lookup_insert_eq in Hk. injection Hk as <-. cbn in Hq.
            injection Hq as <-. rewrite lookup_insert_eq. eauto. }
          rewrite lookup_insert_ne in Hk by congruence. rewrite Ht1 in Hk.
          destruct (Hs k t q Hk Hq) as (Q & HQ & Hcoord).
          destruct (decide (q = r)) as [->|Hqr].
          { destruct (Hs b tb r (eq_sym Hb2) (eq_sym Hub)) as (U' & HU' & Hcb). congruence. }
          rewrite lookup_insert_ne by congruence. rewrite Hu1. eauto.
      + unfold Unit_move, mbind, M_bind, bind, deref in Hrest. cbn in Hrest.
        rewrite Hu1, HU in Hrest. injection Hrest as _ <-.
        split; [exact Hg3|]. intros Hs.
        destruct (Hs b tb r (eq_sym Hb2) (eq_sym Hub)) as (U' & HU' & _). congruence.
    - injection Hrest as _ <-. split; [exact Hg3|]. intros Hs.
      now apply clear_consistent, clear_consistent, Hc1. }
  destruct Hrun as [(e & Hb & ->)|([] & s1 & Hb & Hr)].
  - now apply (Hblock (Raise e)).
  - destruct (Hblock _ _ Hb) as [Hg Hc]. destruct (Hreset _ _ _ Hr) as [Hg' Hc'].
    split; [now transitivity s1|auto].
Qed.

End UndoOutcomes.

Section UndoEdges.

Variable shortest_path : TileMap -> Coordinate -> Coordinate -> Z -> list Coordinate.

(** X9: [move_undo] with two different selections, of which the
    current one is a cell without unit, and no return path stored (or an
    empty one): the occupant of the previously selected cell is cleared,
    then [AttributeError] is raised; every other cell, the units and the
    selections stay as they were. *)
Theorem move_undo_without_unit s a b ta tb :
  prev_sel s = Some a -> curr_sel s = Some b -> a ≠ b ->
  terrains s !! a = Some ta -> terrains s !! b = Some tb -> terrain_unit tb = None ->
  return_path s = None \/ return_path s = Some [] ->
  exists s',
    move_undo shortest_path s = (Raise AttributeError, s') /\
    get_unit a s' = (Ok None, s') /\
    (forall c, c ≠ a -> terrains s' !! c = terrains s !! c) /\
    units s' = units s /\
    prev_sel s' = Some a /\ curr_sel s' = Some b.
Proof.
  intros Hprev Hcurr Hab Ha Hb Hfree Hrp.
  assert (Hu : unit_at s (curr_sel s) = None)
    by (unfold unit_at; now rewrite Hcurr, Hb).
  assert (Hskip : match return_path s with
                  | Some (c :: p) =>
                      move_animation shortest_path None (prev_sel s) (Some (c :: p)) ;;
                      modify (with_return_path None)
                  | _ => ret tt
                  end = ret tt) by (destruct Hrp as [-> | ->]; reflexivity).
  eexists. split.
  - unfold move_undo.
    unfold mbind at 1, M_bind at 1, bind at 1, get at 1.
    destruct (decide (curr_sel s ≠ prev_sel s)) as [_|Heq];
      [|exfalso; apply Heq; congruence].
    apply bind_Raise.
    rewrite (bind_Ok _ _ _ _ _ (curr_unit_run s)), Hu, Hskip.
    unfold mbind at 1, M_bind at 1, bind at 1, ret at 1.
    rewrite Hprev, Hcurr.
    rewrite (bind_Ok _ _ _ _ _ (set_terrain_unit_Ok s a ta None Ha)).
    erewrite bind_Ok; [reflexivity|].
    apply (set_terrain_unit_Ok _ b tb None).
    cbn. rewrite lookup_insert_ne by congruence. exact Hb.
  - cbn. split; [|split; [|auto]].
    + apply (get_unit_Ok _ a (mkTerrain (allowed ta) None)). cbn.
      rewrite lookup_insert_ne by congruence. apply lookup_insert_eq.
    + intros c Hc. destruct (decide (c = b)) as [->|Hcb].
      * rewrite lookup_insert_eq, Hb. f_equal. now apply terrain_eta.
      * now rewrite !lookup_insert_ne by congruence.
Qed.

End UndoEdges.

Section SelectRules.

Variable shortest_path : TileMap -> Coordinate -> Coordinate -> Z -> list Coordinate.
Variable path_area : TileMap -> Coordinate -> Z -> list Coordinate.
Variable is_mine : nat -> Unit -> bool.

Lemma select_head c s :
  select shortest_path path_area is_mine c s =
  (match curr_sel s with
   | None =>
       get_unit c ≫= fun u =>
         match u with
         | None => modify (with_move_area []) ;; modify (with_attack_area [])
         | Some r =>
             deref r ≫= fun U =>
               if played U then modify (with_move_area []) ;; modify (with_attack_area [])
               else update_move_area path_area ;; move_attack_area
         end
   | Some prev =>
       prev_unit ≫= fun pu =>
       curr_unit ≫= fun cu =>
         match pu, cu with
         | Some p, Some _ =>
             deref p ≫= fun P =>
               if bool_decide (prev = c) && negb (played P) && is_mine (active_team s) P
               then action_menu
               else update_move_area path_area ;; move_attack_area
         | _, _ =>
             can_selection_move is_mine ≫= fun can : bool =>
               if can then
                 match pu with
                 | Some p => move shortest_path p c ;; action_menu
                 | None => raise AttributeError
                 end
               else
                 reset_selection ;; modify (with_curr_sel (Some c)) ;;
                 curr_unit ≫= fun cu' =>
                   match cu' with
                   | Some r =>
                       deref r ≫= fun U =>
                         if played U then ret tt
                         else update_move_area path_area ;; move_attack_area
                   | None => ret tt
                   end
         end
   end) (picked c s).
Proof. reflexivity. Qed.

(** X10: picking a second time the unit of the active team that has
    not played opens the action menu and changes nothing but the
    previous selection; [move_undo] from there only resets the
    selection: the board and the stored return path are those before. *)
Theorem select_same_unit_twice s c t u U :
  curr_sel s = Some c -> terrains s !! c = Some t -> terrain_unit t = Some u ->
  units s !! u = Some U -> played U = false -> is_mine (active_team s) U = true ->
  select shortest_path path_area is_mine c s = (Ok tt, picked c s) /\
  move_area (picked c s) = move_area s /\ attack_area (picked c s) = attack_area s /\
  move_undo shortest_path (picked c s) = (Ok tt, unselected s).
Proof.
  intros Hc Ht Hu HU Hpl Hm.
  assert (Hat : unit_at s (Some c) = Some u) by (unfold unit_at; now rewrite Ht).
  split; [|split; [reflexivity|split; [reflexivity|]]].
  - rewrite select_head, Hc.
    rewrite (bind_Ok _ _ _ _ _ (prev_unit_run (picked c s))).
    rewrite (bind_Ok _ _ _ _ _ (curr_unit_run (picked c s))).
    change (unit_at (picked c s) (prev_sel (picked c s))) with (unit_at s (curr_sel s)).
    change (unit_at (picked c s) (curr_sel (picked c s))) with (unit_at s (Some c)).
    rewrite Hc, Hat.
    rewrite (bind_Ok _ _ _ _ _ (deref_Ok (picked c s) u U HU)).
    now rewrite Hpl, Hm, bool_decide_eq_true_2.
  - unfold move_undo.
    unfold mbind at 1, M_bind at 1, bind at 1, get at 1.
    change (prev_sel (picked c s)) with (curr_sel s). rewrite Hc.
    change (curr_sel (picked c s)) with (Some c).
    destruct (decide (Some c ≠ Some c)) as [Hne|_]; [now destruct Hne|].
    reflexivity.
Qed.

(** X11: after a pick that cannot be acted on (the cell picked before
    holds no unit, or its unit has played, is not of the active team or
    cannot reach the new pick, which holds no unit), picking an existing
    cell runs as a first pick on the map with the selection reset. *)
Theorem select_after_irrelevant_pick s a c :
  curr_sel s = Some a -> is_Some (terrains s !! c) ->
  (unit_at s (Some a) = None \/
   (unit_at s (Some c) = None /\
    exists p U, unit_at s (Some a) = Some p /\ units s !! p = Some U /\
                (played U = true \/ is_mine (active_team s) U = false \/ c ∉ move_area s))) ->
  select shortest_path path_area is_mine c s =
  select shortest_path path_area is_mine c (unselected s).
Proof.
  intros Hc [t Ht] Hirr.
  rewrite !select_head, Hc. cbn [curr_sel unselected].
  rewrite (bind_Ok _ _ _ _ _ (prev_unit_run (picked c s))).
  rewrite (bind_Ok _ _ _ _ _ (curr_unit_run (picked c s))).
  change (unit_at (picked c s) (prev_sel (picked c s))) with (unit_at s (curr_sel s)).
  change (unit_at (picked c s) (curr_sel (picked c s))) with (unit_at s (Some c)).
  rewrite Hc.
  assert (Hcan : can_selection_move is_mine (picked c s) = (Ok false, picked c s)).
  { unfold can_selection_move.
    unfold mbind at 1, M_bind at 1, bind at 1, get at 1.
    rewrite (bind_Ok _ _ _ _ _ (prev_unit_run (picked c s))).
    change (unit_at (picked c s) (prev_sel (picked c s))) with (unit_at s (curr_sel s)).
    rewrite Hc.
    destruct Hirr as [-> |(_ & p & U & -> & HU & Hwhy)]; [reflexivity|].
    rewrite (bind_Ok _ _ _ _ _ (deref_Ok (picked c s) p U HU)).
    unfold mret, M_ret, ret. f_equal. cbn [curr_sel picked with_arrow with_curr_sel
      active_team move_area with_prev_sel].
    destruct Hwhy as [-> | [-> | Hout]]; [reflexivity|now rewrite andb_false_r|].
    rewrite bool_decide_eq_false_2 by exact Hout. now rewrite andb_false_r. }
  assert (Htail :
    (can_selection_move is_mine ≫= fun can : bool =>
       if can then
         match unit_at s (Some a) with
         | Some p => move shortest_path p c ;; action_menu
         | None => raise AttributeError
         end
       else
         reset_selection ;; modify (with_curr_sel (Some c)) ;;
         curr_unit ≫= fun cu' =>
           match cu' with
           | Some r =>
               deref r ≫= fun U =>
                 if played U then ret tt
                 else update_move_area path_area ;; move_attack_area
           | None => ret tt
           end) (picked c s) =
    (get_unit c ≫= fun u =>
       match u with
       | None => modify (with_move_area []) ;; modify (with_attack_area [])
       | Some r =>
           deref r ≫= fun U =>
             if played U then modify (with_move_area []) ;; modify (with_attack_area [])
             else update_move_area path_area ;; move_attack_area
       end) (picked c (unselected s))).
  { rewrite (bind_Ok _ _ _ _ _ Hcan).
    rewrite (bind_Ok _ _ _ _ _ (reset_selection_run (picked c s))).
    unfold mbind at 1, M_bind at 1, bind at 1, modify at 1.
    change (with_curr_sel (Some c) _) with (picked c (unselected s)).
    rewrite (bind_Ok _ _ _ _ _ (curr_unit_run (picked c (unselected s)))).
    rewrite (bind_Ok _ _ _ _ _ (get_unit_Ok (picked c (unselected s)) c t Ht)).
    change (unit_at (picked c (unselected s)) (curr_sel (picked c (unselected s))))
      with (unit_at s (Some c)).
    unfold unit_at. rewrite Ht.
    destruct (terrain_unit t) as [r|]; [|reflexivity].
    unfold mbind, M_bind, bind, deref. cbn [units picked unselected with_arrow
      with_curr_sel with_prev_sel].
    destruct (units s !! r) as [U|]; [|reflexivity].
    destruct (played U); reflexivity. }
  destruct Hirr as [Hnone|(Hnone & p & U & Hp & _)].
  - rewrite Hnone in *. exact Htail.
  - rewrite Hnone, Hp in *. exact Htail.
Qed.

End SelectRules.

(** ** Attack areas: standing still, and the enemies in range *)

Lemma still_attack_area_run s c0 t r U :
  curr_sel s = Some c0 -> terrains s !! c0 = Some t ->
  terrain_unit t = Some r -> units s !! r = Some U ->
  still_attack_area s =
  (Ok tt, with_attack_area
            (attack_fill [] c0 (weapon_range U).1 (weapon_range U).2 [])
            (with_move_area [] s)).
Proof.
  intros Hc Ht Hr HU. unfold still_attack_area.
  unfold mbind at 1, M_bind at 1, bind at 1, get at 1.
  rewrite (bind_Ok _ _ _ _ _ (curr_unit_Ok _ _ _ Hc Ht)), Hr, Hc.
  rewrite (bind_Ok _ _ _ _ _ (deref_Ok _ _ _ HU)).
  now destruct (weapon_range U) as [mn mx].
Qed.

(** X12: [still_attack_area] empties the move area and fills the attack
    area, without duplicates, with exactly the coordinates at a
    Manhattan distance from the current selection between the minimal
    and the maximal weapon range of the unit standing there; inside the
    bounds these are the coordinates of [area(curr_sel, max, min)].
    Nothing else of the map changes. *)
Theorem still_attack_area_is_ring s c0 t r U :
  curr_sel s = Some c0 -> terrains s !! c0 = Some t ->
  terrain_unit t = Some r -> units s !! r = Some U ->
  exists s',
    still_attack_area s = (Ok tt, s') /\
    only_areas s s' /\ move_area s' = [] /\ NoDup (attack_area s') /\
    (forall c, c ∈ attack_area s' <->
               (weapon_range U).1 <= distance c0 c <= (weapon_range U).2) /\
    (forall c, check_coord s c = true ->
               (c ∈ attack_area s' <-> c ∈ area s c0 (weapon_range U).2 (weapon_range U).1)).
Proof.
  intros Hc Ht Hr HU. rewrite (still_attack_area_run s c0 t r U Hc Ht Hr HU).
  eexists. split; [reflexivity|]. cbn [move_area attack_area with_attack_area with_move_area].
  split; [repeat split|]. split; [reflexivity|].
  split; [apply attack_fill_NoDup, NoDup_nil_2|].
  assert (Hin : forall c, c ∈ attack_fill [] c0 (weapon_range U).1 (weapon_range U).2 [] <->
                          (weapon_range U).1 <= distance c0 c <= (weapon_range U).2).
  { intros c. rewrite attack_fill_elem. split.
    - intros [H|[_ H]]; [now apply elem_of_nil in H|exact H].
    - intros H. right. split; [apply not_elem_of_nil|exact H]. }
  split; [exact Hin|]. intros c Hb. rewrite Hin, elem_of_area. tauto.
Qed.

Section Attack.

Variable enemies : Unit -> Unit -> bool.

Lemma nearby_scan_run s r U cells :
  units s !! r = Some U ->
  (forall c, c ∈ cells -> is_Some (terrains s !! c)) ->
  consistent s ->
  exists l,
    nearby_scan enemies r cells s = (Ok l, s) /\
    forall o, o ∈ l <->
      exists O, units s !! o = Some O /\ enemies O U = true /\
                coord O ∈ cells /\ unit_at s (Some (coord O)) = Some o.
Proof.
  intros HU Hcells Hs. induction cells as [|c cells IH].
  - exists []. split; [reflexivity|]. intros o. split.
    + intros H. now apply elem_of_nil in H.
    + intros (O & _ & _ & H & _). now apply elem_of_nil in H.
  - destruct IH as (l & Hl & Hspec).
    { intros c' Hc'. apply Hcells. now right. }
    destruct (Hcells c) as [t Ht]; [left|].
    cbn [nearby_scan]. rewrite (bind_Ok _ _ _ _ _ (get_unit_Ok _ _ _ Ht)).
    destruct (terrain_unit t) as [o|] eqn:Ho.
    + destruct (Hs c t o Ht Ho) as (O & HO & Hcoord).
      assert (Hen : are_enemies enemies (Some o) (Some r) s = (Ok (enemies O U), s)).
      { unfold are_enemies. rewrite (bind_Ok _ _ _ _ _ (deref_Ok _ _ _ HO)).
        now rewrite (bind_Ok _ _ _ _ _ (deref_Ok _ _ _ HU)). }
      rewrite (bind_Ok _ _ _ _ _ (bind_Ok _ _ _ _ _ Hen)).
      rewrite (bind_Ok _ _ _ _ _ Hl).
      eexists. split; [reflexivity|]. intros o'. rewrite elem_of_app, Hspec. split.
      * intros [H|(O' & HO' & He & Hin & Hat)].
        -- destruct (enemies O U) eqn:He; [|now apply elem_of_nil in H].
           apply list_elem_of_singleton in H. subst o'. exists O.
           rewrite Hcoord. repeat split; [exact HO|exact He|left|].
           unfold unit_at. now rewrite Ht.
        -- exists O'. repeat split; try assumption. now right.
      * intros (O' & HO' & He & Hin & Hat).
        apply elem_of_cons in Hin as [Hin|Hin]; [|right; eauto].
        left. rewrite Hin in Hat. unfold unit_at in Hat. rewrite Ht, Ho in Hat.
        injection Hat as ->. assert (O' = O) as -> by congruence.
        rewrite He. left.
    + unfold mbind at 1, M_bind at 1, bind at 1, ret at 1.
      rewrite (bind_Ok _ _ _ _ _ Hl).
      eexists. split; [reflexivity|]. intros o'. rewrite Hspec. simpl. split.
      * intros (O' & HO' & He & Hin & Hat). exists O'. repeat split; try assumption. now right.
      * intros (O' & HO' & He & Hin & Hat). exists O'. repeat split; try assumption.
        apply elem_of_cons in Hin as [Hin|Hin]; [|exact Hin].
        rewrite Hin in Hat. unfold unit_at in Hat. rewrite Ht, Ho in Hat. discriminate.
Qed.

Lemma nearby_enemies_run s u r U :
  (u = Some r \/ (u = None /\ unit_at s (curr_sel s) = Some r)) ->
  units s !! r = Some U ->
  nearby_enemies enemies u s =
  nearby_scan enemies r (area s (coord U) (weapon_range U).2 (weapon_range U).1) s.
Proof.
  intros Hu HU. unfold nearby_enemies.
  assert (Hpick : match u with Some r0 => ret (Some r0) | None => curr_unit end s
                  = (Ok (Some r), s)).
  { destruct Hu as [-> | [-> Hat]]; [reflexivity|]. now rewrite curr_unit_run, Hat. }
  rewrite (bind_Ok _ _ _ _ _ Hpick).
  rewrite (bind_Ok _ _ _ _ _ (deref_Ok _ _ _ HU)).
  now destruct (weapon_range U).
Qed.

Lemma nearby_enemies_cells s u r U :
  tiled s -> consistent s ->
  (u = Some r \/ (u = None /\ unit_at s (curr_sel s) = Some r)) ->
  units s !! r = Some U ->
  exists l,
    nearby_enemies enemies u s = (Ok l, s) /\
    forall o, o ∈ l <->
      exists O, units s !! o = Some O /\ enemies O U = true /\
                coord O ∈ area s (coord U) (weapon_range U).2 (weapon_range U).1 /\
                unit_at s (Some (coord O)) = Some o.
Proof.
  intros Htiled Hs Hu HU. rewrite (nearby_enemies_run s u r U Hu HU).
  apply (nearby_scan_run s r U _ HU); [|exact Hs].
  intros c Hc. apply Htiled. now apply elem_of_area in Hc.
Qed.

(** X13: on a map where every coordinate inside the bounds has a cell
    and every occupant's coordinate is its cell, [nearby_enemies]
    returns, the map untouched, exactly the units that are enemies of
    the attacker (the given unit, or the one on the current selection),
    stand on a cell inside the bounds and are at a Manhattan distance
    from the attacker between its minimal and maximal weapon range. *)
Theorem nearby_enemies_in_range s u r U :
  tiled s -> consistent s ->
  (u = Some r \/ (u = None /\ unit_at s (curr_sel s) = Some r)) ->
  units s !! r = Some U ->
  exists l,
    nearby_enemies enemies u s = (Ok l, s) /\
    forall o, o ∈ l <->
      exists O, units s !! o = Some O /\ enemies O U = true /\
                unit_at s (Some (coord O)) = Some o /\
                check_coord s (coord O) = true /\
                (weapon_range U).1 <= distance (coord U) (coord O) <= (weapon_range U).2.
Proof.
  intros Htiled Hs Hu HU.
  destruct (nearby_enemies_cells s u r U Htiled Hs Hu HU) as (l & Hl & Hspec).
  exists l. split; [exact Hl|]. intros o. rewrite Hspec.
  split; intros (O & HO & He & H1 & H2); exists O.
  - apply elem_of_area in H1. tauto.
  - rewrite elem_of_area. tauto.
Qed.

Lemma coords_of_run s l :
  (forall o, o ∈ l -> is_Some (units s !! o)) ->
  exists cs,
    coords_of l s = (Ok cs, s) /\
    forall c, c ∈ cs <-> exists o O, o ∈ l /\ units s !! o = Some O /\ coord O = c.
Proof.
  induction l as [|o l IH]; intros Hlive.
  - exists []. split; [reflexivity|]. intros c. split.
    + intros H. now apply elem_of_nil in H.
    + intros (o & O & H & _). now apply elem_of_nil in H.
  - destruct (Hlive o) as [O HO]; [left|].
    destruct IH as (cs & Hcs & Hspec); [intros o' Ho'; apply Hlive; now right|].
    exists (coord O :: cs). split.
    + cbn [coords_of]. rewrite (bind_Ok _ _ _ _ _ (deref_Ok _ _ _ HO)).
      now rewrite (bind_Ok _ _ _ _ _ Hcs).
    + intros c. rewrite elem_of_cons, Hspec. split.
      * intros [->|(o' & O' & Ho' & HO' & Hc)]; [exists o, O|exists o', O'];
          repeat split; try assumption; [left|now right].
      * intros (o' & O' & Ho' & HO' & Hc).
        apply elem_of_cons in Ho' as [->|Ho']; [left; congruence|right; eauto].
Qed.

(** X14: on such a map [prepare_attack] empties the move area and sets
    as attack area exactly the cells inside the bounds that hold an
    enemy of the attacker within its weapon range; the board is
    untouched, and a given unit becomes the current selection. *)
Theorem prepare_attack_targets s u r U :
  tiled s -> consistent s ->
  (u = Some r \/ (u = None /\ unit_at s (curr_sel s) = Some r)) ->
  units s !! r = Some U ->
  exists s',
    prepare_attack enemies u s = (Ok tt, s') /\
    same_board s s' /\ move_area s' = [] /\
    curr_sel s' = match u with Some _ => Some (coord U) | None => curr_sel s end /\
    forall c, c ∈ attack_area s' <->
      check_coord s c = true /\
      (weapon_range U).1 <= distance (coord U) c <= (weapon_range U).2 /\
      exists o O, unit_at s (Some c) = Some o /\ units s !! o = Some O /\
                  enemies O U = true.
Proof.
  intros Htiled Hs Hu HU. unfold prepare_attack.
  set (s0 := match u with Some _ => with_curr_sel (Some (coord U)) s | None => s end).
  set (s1 := with_move_area [] s0).
  assert (Hhead :
    (match u with
     | Some r0 => deref r0 ≫= fun U0 => modify (with_curr_sel (Some (coord U0)))
     | None => ret tt
     end) s = (Ok tt, s0)).
  { unfold s0. destruct Hu as [-> | [-> _]]; [|reflexivity].
    now rewrite (bind_Ok _ _ _ _ _ (deref_Ok _ _ _ HU)). }
  assert (Hb1 : same_board s s1) by (unfold s1, s0; destruct u; repeat split).
  assert (Ht1 : terrains s1 = terrains s) by apply Hb1.
  assert (Hu1 : units s1 = units s) by apply Hb1.
  assert (Hu' : u = Some r \/ (u = None /\ unit_at s1 (curr_sel s1) = Some r)).
  { destruct Hu as [-> | [-> Hat]]; [now left|right]. split; [reflexivity|exact Hat]. }
  destruct (nearby_enemies_cells s1 u r U) as (l & Hl & Hspec); try assumption.
  { intros c Hc. rewrite Ht1. apply Htiled. destruct Hb1 as (Hw & Hh & _).
    revert Hc. unfold check_coord. destruct c. now rewrite Hw, Hh. }
  { revert Hs. now apply consistent_board. }
  { now rewrite Hu1. }
  destruct (coords_of_run s1 l) as (cs & Hcs & Hcspec).
  { intros o Ho. apply Hspec in Ho as (O & HO & _). eauto. }
  eexists. split.
  - rewrite (bind_Ok _ _ _ _ _ Hhead).
    unfold mbind at 1, M_bind at 1, bind at 1, modify at 1.
    change (with_move_area [] s0) with s1.
    rewrite (bind_Ok _ _ _ _ _ Hl), (bind_Ok _ _ _ _ _ Hcs). reflexivity.
  - cbn [move_area attack_area curr_sel with_attack_area].
    split; [destruct Hb1 as (?&?&?&?&?); repeat split; assumption|].
    split; [reflexivity|]. split; [unfold s1, s0; now destruct u|].
    intros c. rewrite Hcspec. split.
    + intros (o & O & Ho & HO & <-). apply Hspec in Ho as (O' & HO' & He & Harea & Hat).
      assert (O' = O) as -> by congruence.
      apply elem_of_area in Harea as [Hc Hd].
      split; [|split; [exact Hd|]].
      * revert Hc. unfold check_coord. destruct (coord O), Hb1 as (Hw & Hh & _).
        now rewrite Hw, Hh.
      * exists o, O. unfold unit_at in *. rewrite <- Ht1, <- Hu1. auto.
    + intros (Hc & Hd & o & O & Hat & HO & He).
      assert (Hco : coord O = c).
      { unfold unit_at in Hat. destruct (terrains s !! c) as [t|] eqn:Ht; [|discriminate].
        destruct (Hs c t o Ht Hat) as (O' & HO' & Hcoord). congruence. }
      exists o, O. rewrite Hu1. split; [|auto]. apply Hspec. exists O.
      rewrite Hu1, Hco, elem_of_area. unfold unit_at in *. rewrite Ht1.
      repeat split; try assumption; try apply Hd.
      revert Hc. unfold check_coord. destruct c, Hb1 as (Hw & Hh & _). now rewrite Hw, Hh.
Qed.

End Attack.

(** ** Mouse buttons and the zoom *)

Section Mouse.

Variable shortest_path : TileMap -> Coordinate -> Coordinate -> Z -> list Coordinate.
Variable path_area : TileMap -> Coordinate -> Z -> list Coordinate.
Variable is_mine : nat -> Unit -> bool.

(** X15: a mouse button never takes the zoom out of the range from 1 to
    5 and changes it by one at most; the wheel (buttons 4 and 5) and any
    unknown button leave the map untouched and cannot fail, the right
    button (3) resets the selection, and a left click (1) outside the
    map's rectangle or on no cell does nothing. *)
Theorem mouse_button_keeps_zoom event zoom s :
  1 <= zoom <= 5 ->
  (forall r s', handle_mousebuttondown shortest_path path_area is_mine event zoom s = (r, s') ->
     forall z, r = Ok z -> 1 <= z <= 5 /\ Z.abs (z - zoom) <= 1) /\
  (button event ≠ 1 -> button event ≠ 3 ->
   exists z, handle_mousebuttondown shortest_path path_area is_mine event zoom s = (Ok z, s)) /\
  (button event = 3 ->
   handle_mousebuttondown shortest_path path_area is_mine event zoom s
   = (Ok zoom, unselected s)) /\
  (button event = 1 -> inside event = false \/ index_at event = None ->
   handle_mousebuttondown shortest_path path_area is_mine event zoom s = (Ok zoom, s)).
Proof.
  intros Hz. unfold handle_mousebuttondown. split; [|split; [|split]].
  - intros r s' Hrun z ->.
    destruct (decide (button event = 1)) as [_|_].
    { apply bind_inv in Hrun as [(x & _ & H)|(a & s1 & _ & H)]; [discriminate|].
      injection H as <- _. lia. }
    destruct (decide (button event = 3)) as [_|_].
    { apply bind_inv in Hrun as [(x & _ & H)|(a & s1 & _ & H)]; [discriminate|].
      injection H as <- _. lia. }
    destruct (decide (button event = 4)) as [_|_].
    { injection Hrun as <- _. destruct (zoom <? 5) eqn:E; lia. }
    destruct (decide (button event = 5)) as [_|_].
    { injection Hrun as <- _. destruct (1 <? zoom) eqn:E; lia. }
    injection Hrun as <- _. lia.
  - intros H1 H3.
    destruct (decide (button event = 1)); [contradiction|].
    destruct (decide (button event = 3)); [contradiction|].
    destruct (decide (button event = 4)); [eexists; reflexivity|].
    destruct (decide (button event = 5)); eexists; reflexivity.
  - intros H3. destruct (decide (button event = 1)); [congruence|].
    destruct (decide (button event = 3)); [|contradiction]. reflexivity.
  - intros H1 Hmiss. destruct (decide (button event = 1)); [|contradiction].
    destruct Hmiss as [-> | ->]; [reflexivity|]. now destruct (inside event).
Qed.

End Mouse.

(** ** The map [__init__] builds *)

Lemma fold_left_map_inv {B} (f : gmap Coordinate Terrain -> B -> gmap Coordinate Terrain)
    (P : Coordinate -> Terrain -> Prop) :
  (forall m b, map_Forall P m -> map_Forall P (f m b)) ->
  forall l m, map_Forall P m -> map_Forall P (fold_left f l m).
Proof. intros Hf l. induction l as [|b l IH]; intros m Hm; simpl; auto. Qed.

Lemma init_terrains_occupant layers roster c t :
  init_terrains layers roster !! c = Some t ->
  terrain_unit t = head (get_units roster c).
Proof.
  revert c t. change (map_Forall (fun c t => terrain_unit t = head (get_units roster c))
                        (init_terrains layers roster)).
  unfold init_terrains. apply fold_left_map_inv; [|apply map_Forall_empty].
  intros m layer Hm. apply fold_left_map_inv; [|exact Hm].
  intros m' cell Hm'.
  destruct (m' !! (cell_x cell, cell_y cell)); [exact Hm'|].
  destruct (cell_tile cell) as [tile|]; [|exact Hm'].
  apply map_Forall_insert_2; [reflexivity|exact Hm'].
Qed.

Lemma get_units_head roster c r :
  head (get_units roster c) = Some r ->
  exists U, (r, U) ∈ roster /\ coord U = c.
Proof.
  unfold get_units. induction roster as [|[r' U'] roster IH]; simpl; [discriminate|].
  destruct (bool_decide (coord U' = c)) eqn:E; simpl.
  - intros [= <-]. apply bool_decide_eq_true in E. exists U'. split; [left|exact E].
  - intros H. destruct (IH H) as (U & HU & Hc). exists U. split; [now right|exact Hc].
Qed.

Lemma init_occupants layers roster c t r :
  init_terrains layers roster !! c = Some t -> terrain_unit t = Some r ->
  exists U, (r, U) ∈ roster /\ coord U = c.
Proof.
  intros Ht Hr. apply init_terrains_occupant in Ht. rewrite Hr in Ht.
  symmetry in Ht. now apply get_units_head in Ht.
Qed.

(** X16: on the map [__init__] builds from a roster of distinct unit
    objects, whoever a cell names as its occupant is a unit of the
    roster whose coordinate is that cell. *)
Theorem init_consistent width height layers roster active :
  NoDup (map fst roster) ->
  consistent (init width height layers roster active).
Proof.
  intros Hnd c t r Ht Hr. cbn in Ht |- *.
  destruct (init_occupants layers roster c t r Ht Hr) as (U & HU & Hc).
  exists U. split; [|exact Hc]. now apply elem_of_list_to_map_1.
Qed.

Section Layers.

Variable roster : list (uref * Unit).

Local Abbreviation put := (init_cell roster).

Lemma put_keeps m cell c t : m !! c = Some t -> put m cell !! c = Some t.
Proof.
  intros Hm. unfold init_cell.
  destruct (m !! (cell_x cell, cell_y cell)) eqn:E; [exact Hm|].
  destruct (cell_tile cell); [|exact Hm].
  rewrite lookup_insert_ne; [exact Hm|]. intros <-. congruence.
Qed.

Lemma layer_keeps layer m c t :
  m !! c = Some t -> fold_left put layer m !! c = Some t.
Proof.
  revert m. induction layer as [|cell layer IH]; intros m Hm; simpl; [exact Hm|].
  apply IH, put_keeps, Hm.
Qed.

Lemma layers_keep ls m c t :
  m !! c = Some t ->
  fold_left (fun m layer => fold_left put layer m) ls m !! c = Some t.
Proof.
  revert m. induction ls as [|layer ls IH]; intros m Hm; simpl; [exact Hm|].
  apply IH, layer_keeps, Hm.
Qed.

Lemma layer_skips layer m c :
  (forall cell, cell ∈ layer -> (cell_x cell, cell_y cell) = c -> cell_tile cell = None) ->
  m !! c = None -> fold_left put layer m !! c = None.
Proof.
  revert m. induction layer as [|cell layer IH]; intros m Hnone Hm; simpl; [exact Hm|].
  apply IH; [intros cell' Hin; apply Hnone; now right|].
  unfold init_cell. destruct (m !! (cell_x cell, cell_y cell)) eqn:E; [exact Hm|].
  destruct (cell_tile cell) as [tile|] eqn:Ht; [|exact Hm].
  rewrite lookup_insert_ne; [exact Hm|]. intros Heq.
  rewrite (Hnone cell) in Ht; [discriminate|left|exact Heq].
Qed.

Lemma layers_skip ls m c :
  (forall layer cell, layer ∈ ls -> cell ∈ layer ->
     (cell_x cell, cell_y cell) = c -> cell_tile cell = None) ->
  m !! c = None ->
  fold_left (fun m layer => fold_left put layer m) ls m !! c = None.
Proof.
  revert m. induction ls as [|layer ls IH]; intros m Hnone Hm; simpl; [exact Hm|].
  apply IH; [intros l cell Hl; apply Hnone; now right|].
  apply layer_skips; [|exact Hm]. intros cell. apply Hnone. left.
Qed.

Lemma layer_puts layer m cell tile :
  NoDup (map (fun cell => (cell_x cell, cell_y cell)) layer) ->
  cell ∈ layer -> cell_tile cell = Some tile ->
  m !! (cell_x cell, cell_y cell) = None ->
  fold_left put layer m !! (cell_x cell, cell_y cell) =
  Some (new_Terrain tile (head (get_units roster (cell_x cell, cell_y cell)))).
Proof.
  revert m. induction layer as [|x layer IH]; intros m Hnd Hin Htile Hm.
  - now apply elem_of_nil in Hin.
  - simpl in Hnd. apply NoDup_cons in Hnd as [Hx Hnd]. simpl.
    apply elem_of_cons in Hin as [<-|Hin].
    + apply layer_keeps. unfold init_cell. rewrite Hm, Htile. apply lookup_insert_eq.
    + apply IH; try assumption.
      assert ((cell_x x, cell_y x) ≠ (cell_x cell, cell_y cell)).
      { intros E. apply Hx. rewrite E.
        now apply (list_elem_of_fmap_2 (fun cell => (cell_x cell, cell_y cell))). }
      unfold init_cell. destruct (m !! (cell_x x, cell_y x)); [exact Hm|].
      destruct (cell_tile x); [|exact Hm]. now rewrite lookup_insert_ne.
Qed.

(** X17: the terrain of a coordinate comes from the topmost layer that
    has a tile there: when no layer above [layer] carries a tile at the
    position of [cell], a cell of [layer] with the tile [tile], the
    terrain built for this position has the allowed traversal of [tile]
    and, as occupant, the first unit of the roster standing there,
    whatever the layers below hold. *)
Theorem init_topmost_tile_wins lower layer upper cell tile :
  NoDup (map (fun cell => (cell_x cell, cell_y cell)) layer) ->
  cell ∈ layer -> cell_tile cell = Some tile ->
  (forall l cell', l ∈ upper -> cell' ∈ l ->
     (cell_x cell', cell_y cell') = (cell_x cell, cell_y cell) -> cell_tile cell' = None) ->
  init_terrains (lower ++ layer :: upper) roster !! (cell_x cell, cell_y cell) =
  Some (mkTerrain (tile_allowed tile)
                  (head (get_units roster (cell_x cell, cell_y cell)))).
Proof.
  intros Hnd Hin Htile Hup. unfold init_terrains.
  change (fold_left ?f (rev (lower ++ layer :: upper)) ∅)
    with (fold_left (fun m layer0 => fold_left put layer0 m)
                    (rev (lower ++ layer :: upper)) ∅).
  rewrite rev_app_distr. simpl. rewrite <- app_assoc. simpl.
  rewrite fold_left_app. cbn [fold_left].
  apply layers_keep, layer_puts; try assumption.
  apply layers_skip; [|apply lookup_empty].
  intros l cell' Hl Hc He. rewrite elem_of_rev in Hl. now apply (Hup l cell').
Qed.

End Layers.

(** ** The registry of callbacks of a room *)

Lemma list_remove_not_in x l : NoDup l -> x ∉ list_remove x l.
Proof.
  induction 1 as [|y l Hy Hnd IH]; simpl; [apply not_elem_of_nil|].
  destruct (decide (y = x)) as [->|Hne]; [exact Hy|].
  rewrite not_elem_of_cons. split; [congruence|exact IH].
Qed.

Lemma list_remove_subset x y l : y ∈ list_remove x l -> y ∈ l.
Proof.
  induction l as [|z l IH]; simpl; [auto|].
  destruct (decide (z = x)); [now right|].
  rewrite !elem_of_cons. intros [->|H]; auto.
Qed.

Lemma list_remove_NoDup x l : NoDup l -> NoDup (list_remove x l).
Proof.
  induction 1 as [|y l Hy Hnd IH]; simpl; [apply NoDup_nil_2|].
  destruct (decide (y = x)); [exact Hnd|].
  apply NoDup_cons. split; [|exact IH]. intros H. apply Hy. now apply list_remove_subset in H.
Qed.

Lemma list_remove_snoc x l : x ∉ l -> list_remove x (l ++ [x]) = l.
Proof.
  induction l as [|y l IH]; simpl; intros Hx.
  - destruct (decide (x = x)); [reflexivity|contradiction].
  - rewrite not_elem_of_cons in Hx. destruct Hx as [Hxy Hx].
    destruct (decide (y = x)); [congruence|]. now rewrite IH.
Qed.

Lemma removelast_NoDup (l : list nat) : NoDup l -> NoDup (removelast l).
Proof.
  induction 1 as [|y l Hy Hnd IH]; [apply NoDup_nil_2|].
  destruct l as [|z l]; [apply NoDup_nil_2|].
  change (removelast (y :: z :: l)) with (y :: removelast (z :: l)).
  apply NoDup_cons. split; [|exact IH].
  intros H. apply Hy. apply list_elem_of_In. apply list_elem_of_In in H.
  clear -H. revert H. generalize (z :: l). intros k. induction k as [|a k IHk]; simpl; [auto|].
  destruct k; [intros []|]. intros [->|H]; [now left|right; now apply IHk].
Qed.

(** X18: [register] makes the callback a member of the list of its
    event type and touches no other event type; registering the same
    callback again changes nothing; and lists without duplicates stay
    so. *)
Theorem register_adds_once event_type callback callbacks :
  let callbacks' := Room_register event_type callback callbacks in
  (exists l, callbacks' !! event_type = Some l /\ callback ∈ l) /\
  (forall e, e ≠ event_type -> callbacks' !! e = callbacks !! e) /\
  Room_register event_type callback callbacks' = callbacks' /\
  (tidy callbacks -> tidy callbacks').
Proof.
  unfold Room_register. destruct (callbacks !! event_type) as [l|] eqn:E.
  - destruct (decide (callback ∈ l)) as [Hin|Hout]; cbn zeta.
    + rewrite E. destruct (decide (callback ∈ l)); [|contradiction]. eauto 10.
    + rewrite lookup_insert_eq.
      destruct (decide (callback ∈ l ++ [callback])) as [_|Hn];
        [|exfalso; apply Hn; rewrite elem_of_app; right; left].
      split; [exists (l ++ [callback]); split; [reflexivity|rewrite elem_of_app; right; left]|].
      split; [intros e He; now rewrite lookup_insert_ne|]. split; [reflexivity|].
      intros Ht e l' Hl'. destruct (decide (e = event_type)) as [->|He].
      * rewrite lookup_insert_eq in Hl'. injection Hl' as <-.
        apply NoDup_app. split; [now apply (Ht event_type)|].
        split; [|apply NoDup_singleton].
        intros x Hx Hx'. apply list_elem_of_singleton in Hx'. now subst.
      * rewrite lookup_insert_ne in Hl' by congruence. now apply (Ht e).
  - cbn zeta. rewrite lookup_insert_eq.
    destruct (decide (callback ∈ [callback])) as [_|Hn]; [|exfalso; apply Hn; left].
    split; [exists [callback]; split; [reflexivity|left]|].
    split; [intros e He; now rewrite lookup_insert_ne|]. split; [reflexivity|].
    intros Ht e l' Hl'. destruct (decide (e = event_type)) as [->|He].
    + rewrite lookup_insert_eq in Hl'. injection Hl' as <-. apply NoDup_singleton.
    + rewrite lookup_insert_ne in Hl' by congruence. now apply (Ht e).
Qed.

Lemma fits_c_int_spec z :
  fits_c_int z = true <-> -2147483648 <= z <= 2147483647.
Proof. unfold fits_c_int. rewrite andb_true_iff, !Z.leb_le. tauto. Qed.

Lemma log_event_name_Ok z : log_event_name z = Ok tt <-> fits_c_int z = true.
Proof. unfold log_event_name. destruct (fits_c_int z); split; congruence. Qed.

Lemma log_event_name_Raise z e :
  log_event_name z = Raise e <-> fits_c_int z = false /\ e = OverflowError.
Proof.
  unfold log_event_name. destruct (fits_c_int z); split;
    try discriminate; try (intros [? ?]; congruence).
  intros [= <-]. auto.
Qed.

(** The list [unregister] leaves for a key whose list is [l]. *)
Lemma unregister_list callback (l : list nat) event_type callbacks :
  callbacks !! event_type = Some l ->
  exists l',
    (Room_unregister event_type callback callbacks).2 = <[event_type := l']> callbacks /\
    (NoDup l -> NoDup l') /\
    (forall cb, callback = Some cb -> NoDup l -> cb ∉ l').
Proof.
  intros E. unfold Room_unregister. rewrite E. cbn [snd].
  destruct callback as [cb|].
  - destruct (decide (cb ∈ l)) as [Hin|Hout].
    + exists (list_remove cb l). split; [reflexivity|].
      split; [apply list_remove_NoDup|]. intros cb' [= <-]. apply list_remove_not_in.
    + exists l. split; [now rewrite insert_id|]. split; [auto|]. now intros cb' [= <-] _.
  - destruct (decide (0 < length l)%nat).
    + exists (removelast l). split; [reflexivity|].
      split; [apply removelast_NoDup|discriminate].
    + exists l. split; [now rewrite insert_id|]. split; [auto|discriminate].
Qed.

(** X19: [unregister] raises [KeyError], the registry untouched, exactly
    for an event type that is no key of the registry. For a key it
    updates the list and then returns normally exactly when the event
    type fits a C [int]; when it does not, the log call raises
    [OverflowError] with the update done. Whatever the outcome, no other
    event type is touched, lists without duplicates stay so, and on
    such a list a callback unregistered by name is no longer a
    member. *)
Theorem unregister_removes event_type callback callbacks :
  let run := Room_unregister event_type callback callbacks in
  (run.1 = Raise KeyError <-> callbacks !! event_type = None) /\
  (callbacks !! event_type = None -> run.2 = callbacks) /\
  (run.1 = Ok tt <->
   is_Some (callbacks !! event_type) /\ -2147483648 <= event_type <= 2147483647) /\
  (run.1 = Raise OverflowError <->
   is_Some (callbacks !! event_type) /\
   ~ (-2147483648 <= event_type <= 2147483647)) /\
  (forall e, e ≠ event_type -> run.2 !! e = callbacks !! e) /\
  (tidy callbacks ->
   tidy run.2 /\
   forall cb l, callback = Some cb -> run.2 !! event_type = Some l -> cb ∉ l).
Proof.
  cbn zeta. destruct (callbacks !! event_type) as [l|] eqn:E.
  - destruct (unregister_list callback l event_type callbacks E) as (l' & Hd & Hnd & Hout).
    rewrite Hd. clear Hd.
    unfold Room_unregister. rewrite E. cbn [fst].
    split; [split; [|discriminate]|].
    { intros H. apply log_event_name_Raise in H as [_ H]. discriminate. }
    split; [discriminate|].
    split; [rewrite log_event_name_Ok, fits_c_int_spec; split; [eauto|tauto]|].
    split.
    { rewrite log_event_name_Raise, <- fits_c_int_spec.
      destruct (fits_c_int event_type); split.
      - intros [? _]. discriminate.
      - intros [_ H]. now destruct H.
      - eauto.
      - auto. }
    split; [intros e He; now rewrite lookup_insert_ne|].
    intros Ht. split.
    + intros e l0 Hl0. destruct (decide (e = event_type)) as [->|He].
      * rewrite lookup_insert_eq in Hl0. injection Hl0 as <-. apply Hnd, (Ht _ _ E).
      * rewrite lookup_insert_ne in Hl0 by congruence. now apply (Ht e).
    + intros cb l0 Hcb Hl0. rewrite lookup_insert_eq in Hl0. injection Hl0 as <-.
      apply (Hout cb Hcb), (Ht _ _ E).
  - unfold Room_unregister. rewrite E. cbn [fst snd].
    split; [split; reflexivity|]. split; [reflexivity|].
    split; [split; [discriminate|intros [[? H] _]; discriminate]|].
    split; [split; [discriminate|intros [[? H] _]; discriminate]|].
    split; [reflexivity|].
    intros Ht. split; [exact Ht|]. intros cb l _ H. rewrite E in H. discriminate.
Qed.

(** X20: registering a callback that was not registered and
    unregistering it, by name or as the latest one, leaves the registry
    as it was when the event type was a key of it; for a new event type
    the key stays, with the empty list, so that a further [unregister],
    a [KeyError] before, gets to its log call. The registry is this one
    whatever the outcome of the calls: each of them returns normally
    when the event type fits a C [int] and raises [OverflowError], its
    update done, when it does not. *)
Theorem register_unregister event_type callback callbacks :
  let registered := Room_register_call event_type callback callbacks in
  let outcome := if decide (-2147483648 <= event_type <= 2147483647)
                 then Ok tt else Raise OverflowError in
  registered.1 = outcome /\
  (forall l, callbacks !! event_type = Some l -> callback ∉ l ->
     Room_unregister event_type (Some callback) registered.2 = (outcome, callbacks) /\
     Room_unregister event_type None registered.2 = (outcome, callbacks)) /\
  (callbacks !! event_type = None ->
     Room_unregister event_type None callbacks = (Raise KeyError, callbacks) /\
     Room_unregister event_type (Some callback) registered.2
     = (outcome, <[event_type := []]> callbacks) /\
     Room_unregister event_type None (<[event_type := []]> callbacks)
     = (outcome, <[event_type := []]> callbacks)).
Proof.
  cbn zeta.
  assert (Hlog : log_event_name event_type
                 = if decide (-2147483648 <= event_type <= 2147483647)
                   then Ok tt else Raise OverflowError).
  { unfold log_event_name. destruct (fits_c_int event_type) eqn:F.
    - apply fits_c_int_spec in F. now destruct (decide _).
    - destruct (decide _) as [H|]; [|reflexivity].
      apply fits_c_int_spec in H. congruence. }
  unfold Room_register_call. cbn [fst snd]. rewrite <- Hlog. clear Hlog.
  split; [reflexivity|]. split.
  - intros l E Hout. unfold Room_register, Room_unregister. rewrite E.
    destruct (decide (callback ∈ l)); [contradiction|]. rewrite lookup_insert_eq.
    destruct (decide (callback ∈ l ++ [callback])) as [_|Hn];
      [|exfalso; apply Hn; rewrite elem_of_app; right; left].
    destruct (decide (0 < length (l ++ [callback]))%nat) as [_|Hn];
      [|exfalso; apply Hn; rewrite length_app; simpl; lia].
    rewrite list_remove_snoc by exact Hout. rewrite removelast_last.
    rewrite insert_insert_eq, insert_id by exact E. auto.
  - intros E. unfold Room_register, Room_unregister. rewrite E, !lookup_insert_eq.
    destruct (decide (callback ∈ [callback])) as [_|Hn]; [|exfalso; apply Hn; left].
    simpl. destruct (decide (callback = callback)); [|contradiction].
    rewrite insert_insert_eq. auto.
Qed.

(** ** Killing a unit; ranges *)

(** X21: on a map where every occupant's coordinate is its cell,
    [kill_unit] of a unit whose cell exists clears this cell, after
    which no cell names the unit; nothing else changes, and every
    occupant's coordinate is still its cell. When the cell of the
    unit's coordinate does not exist it raises [KeyError] and changes
    nothing. *)
Theorem kill_unit_clears_grid s u U :
  consistent s -> units s !! u = Some U ->
  (terrains s !! coord U = None -> kill_unit u s = (Raise KeyError, s)) /\
  (forall t, terrains s !! coord U = Some t ->
     exists s',
       kill_unit u s = (Ok tt, s') /\
       terrains s' = <[coord U := mkTerrain (allowed t) None]> (terrains s) /\
       units s' = units s /\
       (forall c, unit_at s' (Some c) ≠ Some u) /\
       consistent s' /\ same_ground s s').
Proof.
  intros Hs HU. unfold kill_unit.
  rewrite (bind_Ok _ _ _ _ _ (deref_Ok _ _ _ HU)). split.
  - intros Hnone. now apply set_terrain_unit_missing.
  - intros t Ht. rewrite (set_terrain_unit_Ok s (coord U) t None Ht).
    eexists. split; [reflexivity|]. split; [reflexivity|]. split; [reflexivity|].
    split; [|split; [now apply clear_consistent|now apply put_same_ground]].
    intros c Hat. unfold unit_at in Hat. cbn in Hat.
    destruct (decide (c = coord U)) as [->|Hc].
    + rewrite lookup_insert_eq in Hat. discriminate.
    + rewrite lookup_insert_ne in Hat by congruence.
      destruct (terrains s !! c) as [t'|] eqn:Ht'; [|discriminate].
      destruct (Hs c t' u Ht' Hat) as (U' & HU' & Hcoord). congruence.
Qed.

Lemma distance_sym a b : distance a b = distance b a.
Proof. unfold distance. lia. Qed.

(** X22: ranges are symmetric: of two coordinates inside the bounds,
    one lies in the ring [area] around the other exactly when the other
    lies in the ring of the same radii around it. *)
Theorem area_symmetric s a b radius hole :
  check_coord s a = true -> check_coord s b = true ->
  (b ∈ area s a radius hole <-> a ∈ area s b radius hole).
Proof.
  intros Ha Hb. rewrite !elem_of_area, (distance_sym a b). tauto.
Qed.

(** X23: [move_attack_area] never lists a coordinate twice in the
    attack area. *)
Theorem attack_area_has_no_duplicates s c0 t r U :
  curr_sel s = Some c0 -> terrains s !! c0 = Some t ->
  terrain_unit t = Some r -> units s !! r = Some U ->
  exists s', move_attack_area s = (Ok tt, s') /\ NoDup (attack_area s').
Proof.
  intros Hc Ht Hr HU. rewrite (move_attack_area_run s c0 t r U Hc Ht Hr HU).
  eexists. split; [reflexivity|]. apply combined_area_NoDup.
Qed.

Section SecondUnit.

Variable shortest_path : TileMap -> Coordinate -> Coordinate -> Z -> list Coordinate.
Variable path_area : TileMap -> Coordinate -> Z -> list Coordinate.
Variable is_mine : nat -> Unit -> bool.

(** X24: when the cell picked before and the cell picked now both hold a
    unit, and it is not the same cell with a unit of the active team
    that has not played, [select] moves nobody and shows the move and
    attack areas of the unit picked now, also when this unit has
    played. *)
Theorem select_second_unit s a c ta tc p q P Q :
  curr_sel s = Some a ->
  terrains s !! a = Some ta -> terrain_unit ta = Some p -> units s !! p = Some P ->
  terrains s !! c = Some tc -> terrain_unit tc = Some q -> units s !! q = Some Q ->
  (a ≠ c \/ played P = true \/ is_mine (active_team s) P = false) ->
  select shortest_path path_area is_mine c s =
  (Ok tt,
   with_attack_area
     (combined_area (path_area (picked c s) c (movement Q))
                    (weapon_range Q).1 (weapon_range Q).2)
     (with_move_area (path_area (picked c s) c (movement Q)) (picked c s))).
Proof.
  intros Hc Ha Hp HP Htc Hq HQ Hwhy.
  rewrite select_head, Hc.
  rewrite (bind_Ok _ _ _ _ _ (prev_unit_Ok (picked c s) a ta Hc Ha)), Hp.
  rewrite (bind_Ok _ _ _ _ _ (curr_unit_Ok (picked c s) c tc eq_refl Htc)), Hq.
  rewrite (bind_Ok _ _ _ _ _ (deref_Ok (picked c s) p P HP)).
  assert (bool_decide (a = c) && negb (played P) && is_mine (active_team s) P = false) as ->.
  { destruct Hwhy as [Hne|[-> | ->]].
    - now rewrite bool_decide_eq_false_2.
    - now rewrite andb_false_r.
    - now rewrite andb_false_r. }
  now apply (show_areas_run path_area (picked c s) c tc q Q).
Qed.

End SecondUnit.

(** * The further properties on the demo maps *)

Lemma open_layer_elem width height x y :
  0 <= x < width -> 0 <= y < height ->
  mkCell x y (Some (mkTile ["any"%string])) ∈ open_layer width height.
Proof.
  intros Hx Hy. unfold open_layer. apply list_elem_of_In, in_flat_map.
  exists y. split; [now apply list_elem_of_In, elem_of_range|].
  apply in_map_iff. exists x. split; [reflexivity|]. now apply list_elem_of_In, elem_of_range.
Qed.

Lemma open_map_tiled width height roster active :
  tiled (init width height [open_layer width height] roster active).
Proof.
  intros [x y] Hc. apply check_coord_spec in Hc. cbn in Hc.
  apply (init_terrains_is_Some [open_layer width height] roster (x, y)).
  exists (open_layer width height), (mkCell x y (Some (mkTile ["any"%string]))).
  split; [left|]. split; [now apply open_layer_elem|]. split; [reflexivity|eauto].
Qed.

Lemma open_map_consistent width height layers roster active :
  List.NoDup (map fst roster) -> consistent (init width height layers roster active).
Proof.
  intros Hnd c t r Ht Hr. cbn in Ht |- *.
  destruct (init_occupants layers roster c t r Ht Hr) as (U & HU & Hc).
  exists U. split; [|exact Hc]. apply elem_of_list_to_map_1; [|exact HU].
  now apply NoDup_ListNoDup.
Qed.

Lemma demo_consistent : consistent demo.
Proof. apply open_map_consistent. repeat constructor; simpl; intuition discriminate. Qed.

Lemma skirmish_consistent : consistent skirmish.
Proof. apply open_map_consistent. repeat constructor; simpl; intuition discriminate. Qed.

Lemma neighbors_are_adjacent_cells_witness :
  check_coord demo (0, 0) = true /\
  exists ns, neighbors (0, 0) demo = (Ok ns, demo) /\ NoDup ns /\ (length ns <= 4)%nat.
Proof.
  assert (Hc : check_coord demo (0, 0) = true) by reflexivity.
  split; [exact Hc|].
  destruct (proj2 (neighbors_are_adjacent_cells demo (0, 0)) Hc) as (ns & Hrun & Hnd & Hlen & _).
  exists ns. auto.
Defined.

Lemma neighbors_same_as_ring_witness :
  check_coord demo (2, 2) = true /\
  exists ns, neighbors (2, 2) demo = (Ok ns, demo) /\
             forall c', c' ∈ ns <-> c' ∈ area demo (2, 2) 1 1.
Proof.
  assert (Hc : check_coord demo (2, 2) = true) by reflexivity.
  split; [exact Hc|]. exact (neighbors_same_as_ring demo (2, 2) Hc).
Defined.

Lemma move_failure_changes_no_occupancy_witness :
  move spec_shortest_path 1%nat (0, 0) demo =
    (Raise (ValueError (OccupiedDestination (0, 0))), demo) /\
  exists rp, demo = with_return_path rp demo.
Proof.
  assert (Hrun : move spec_shortest_path 1%nat (0, 0) demo =
                 (Raise (ValueError (OccupiedDestination (0, 0))), demo))
    by (vm_compute; reflexivity).
  split; [exact Hrun|].
  exact (proj1 (move_failure_changes_no_occupancy spec_shortest_path demo 1%nat (0, 0)
                  _ demo Hrun)).
Defined.

Lemma move_keeps_invariants_witness :
  fst (move spec_shortest_path 1%nat (3, 3) demo) = Ok tt /\
  same_ground demo (snd (move spec_shortest_path 1%nat (3, 3) demo)) /\
  consistent (snd (move spec_shortest_path 1%nat (3, 3) demo)).
Proof.
  split; [vm_compute; reflexivity|].
  destruct (move_keeps_invariants spec_shortest_path demo 1%nat (3, 3)
              (fst (move spec_shortest_path 1%nat (3, 3) demo))
              (snd (move spec_shortest_path 1%nat (3, 3) demo)))
    as (Hg & Hc & _).
  - now destruct (move spec_shortest_path 1%nat (3, 3) demo).
  - split; [exact Hg|exact (Hc demo_consistent)].
Defined.

Lemma select_keeps_invariants_witness :
  fst (select spec_shortest_path spec_area team_is_mine (3, 3) demo_selected) = Ok tt /\
  consistent (snd (select spec_shortest_path spec_area team_is_mine (3, 3) demo_selected)).
Proof.
  split; [vm_compute; reflexivity|].
  destruct (select_keeps_invariants spec_shortest_path spec_area team_is_mine (3, 3)
              demo_selected
              (fst (select spec_shortest_path spec_area team_is_mine (3, 3) demo_selected))
              (snd (select spec_shortest_path spec_area team_is_mine (3, 3) demo_selected)))
    as (_ & Hc & _).
  - now destruct (select spec_shortest_path spec_area team_is_mine (3, 3) demo_selected).
  - apply Hc. unfold demo_selected.
    destruct (select_keeps_invariants spec_shortest_path spec_area team_is_mine (2, 2) demo
                (fst (select spec_shortest_path spec_area team_is_mine (2, 2) demo))
                (snd (select spec_shortest_path spec_area team_is_mine (2, 2) demo)))
      as (_ & Hc' & _).
    + now destruct (select spec_shortest_path spec_area team_is_mine (2, 2) demo).
    + exact (Hc' demo_consistent).
Defined.

Lemma select_moves_only_own_unit_witness :
  fst (select spec_shortest_path spec_area team_is_mine (0, 0) demo) = Ok tt /\
  same_board demo (snd (select spec_shortest_path spec_area team_is_mine (0, 0) demo)).
Proof.
  split; [vm_compute; reflexivity|].
  destruct (select_moves_only_own_unit spec_shortest_path spec_area team_is_mine (0, 0) demo
              (fst (select spec_shortest_path spec_area team_is_mine (0, 0) demo))
              (snd (select spec_shortest_path spec_area team_is_mine (0, 0) demo)))
    as [H|(a & p & U & Ha & _)].
  - now destruct (select spec_shortest_path spec_area team_is_mine (0, 0) demo).
  - exact H.
  - discriminate Ha.
Defined.

Lemma select_shifts_selection_witness :
  fst (select spec_shortest_path spec_area team_is_mine (9, 9) demo) = Raise KeyError /\
  curr_sel (snd (select spec_shortest_path spec_area team_is_mine (9, 9) demo)) = Some (9, 9).
Proof.
  split; [vm_compute; reflexivity|].
  apply (select_shifts_selection spec_shortest_path spec_area team_is_mine (9, 9) demo
           (fst (select spec_shortest_path spec_area team_is_mine (9, 9) demo))).
  now destruct (select spec_shortest_path spec_area team_is_mine (9, 9) demo).
Defined.

Lemma move_undo_keeps_consistency_witness :
  fst (move_undo spec_shortest_path
         (snd (select spec_shortest_path spec_area team_is_mine (3, 3) demo_selected)))
  = Ok tt /\
  same_ground
    (snd (select spec_shortest_path spec_area team_is_mine (3, 3) demo_selected))
    (snd (move_undo spec_shortest_path
            (snd (select spec_shortest_path spec_area team_is_mine (3, 3) demo_selected)))).
Proof.
  split; [vm_compute; reflexivity|].
  apply (move_undo_keeps_consistency spec_shortest_path _
           (fst (move_undo spec_shortest_path
                   (snd (select spec_shortest_path spec_area team_is_mine (3, 3)
                           demo_selected))))).
  now destruct (move_undo spec_shortest_path _).
Defined.

Lemma move_undo_without_unit_witness :
  prev_sel (picked (3, 3) (picked (2, 2) demo)) = Some (2, 2) /\
  curr_sel (picked (3, 3) (picked (2, 2) demo)) = Some (3, 3) /\
  get_unit (2, 2) demo = (Ok (Some 1%nat), demo) /\
  exists s',
    move_undo spec_shortest_path (picked (3, 3) (picked (2, 2) demo))
    = (Raise AttributeError, s') /\
    get_unit (2, 2) s' = (Ok None, s').
Proof.
  split; [reflexivity|]. split; [reflexivity|]. split; [vm_compute; reflexivity|].
  destruct (move_undo_without_unit spec_shortest_path
              (picked (3, 3) (picked (2, 2) demo)) (2, 2) (3, 3)
              (mkTerrain ["any"%string] (Some 1%nat)) (mkTerrain ["any"%string] None)
              eq_refl eq_refl ltac:(discriminate)
              ltac:(vm_compute; reflexivity) ltac:(vm_compute; reflexivity) eq_refl
              (or_introl eq_refl))
    as (s' & Hrun & Hgone & _).
  exists s'. auto.
Defined.

Lemma select_same_unit_twice_witness :
  curr_sel demo_selected = Some (2, 2) /\
  select spec_shortest_path spec_area team_is_mine (2, 2) demo_selected
  = (Ok tt, picked (2, 2) demo_selected) /\
  move_undo spec_shortest_path (picked (2, 2) demo_selected)
  = (Ok tt, unselected demo_selected).
Proof.
  assert (Hc : curr_sel demo_selected = Some (2, 2)) by (vm_compute; reflexivity).
  split; [exact Hc|].
  destruct (select_same_unit_twice spec_shortest_path spec_area team_is_mine demo_selected
              (2, 2) (mkTerrain ["any"%string] (Some 1%nat)) 1%nat (soldier (2, 2) 1%nat) Hc)
    as (Hsel & _ & _ & Hundo); try (vm_compute; reflexivity).
  auto.
Defined.

Lemma select_after_irrelevant_pick_witness :
  curr_sel (picked (4, 4) demo) = Some (4, 4) /\
  unit_at (picked (4, 4) demo) (Some (4, 4)) = None /\
  select spec_shortest_path spec_area team_is_mine (2, 2) (picked (4, 4) demo) =
  select spec_shortest_path spec_area team_is_mine (2, 2) (unselected (picked (4, 4) demo)).
Proof.
  assert (Hat : unit_at (picked (4, 4) demo) (Some (4, 4)) = None)
    by (vm_compute; reflexivity).
  split; [reflexivity|]. split; [exact Hat|].
  apply (select_after_irrelevant_pick spec_shortest_path spec_area team_is_mine
           (picked (4, 4) demo) (4, 4) (2, 2) eq_refl).
  - eexists. vm_compute. reflexivity.
  - left. exact Hat.
Defined.

Lemma still_attack_area_is_ring_witness :
  curr_sel demo_selected = Some (2, 2) /\
  exists s',
    still_attack_area demo_selected = (Ok tt, s') /\ move_area s' = [] /\
    forall c, c ∈ attack_area s' <-> 1 <= distance (2, 2) c <= 1.
Proof.
  assert (Hc : curr_sel demo_selected = Some (2, 2)) by (vm_compute; reflexivity).
  split; [exact Hc|].
  destruct (still_attack_area_is_ring demo_selected (2, 2)
              (mkTerrain ["any"%string] (Some 1%nat)) 1%nat (soldier (2, 2) 1%nat) Hc)
    as (s' & Hrun & _ & Hmv & _ & Hin & _); try (vm_compute; reflexivity).
  exists s'. auto.
Defined.

Lemma nearby_enemies_in_range_witness :
  tiled skirmish /\ consistent skirmish /\
  units skirmish !! 1%nat = Some (soldier (2, 2) 1%nat) /\
  exists l, nearby_enemies team_enemies (Some 1%nat) skirmish = (Ok l, skirmish).
Proof.
  assert (HU : units skirmish !! 1%nat = Some (soldier (2, 2) 1%nat))
    by (vm_compute; reflexivity).
  split; [apply open_map_tiled|]. split; [exact skirmish_consistent|]. split; [exact HU|].
  destruct (nearby_enemies_in_range team_enemies skirmish (Some 1%nat) 1%nat
              (soldier (2, 2) 1%nat) (open_map_tiled 5 5 _ _) skirmish_consistent
              (or_introl eq_refl) HU) as (l & Hl & _).
  exists l. exact Hl.
Defined.

Lemma prepare_attack_targets_witness :
  tiled skirmish /\ consistent skirmish /\
  exists s',
    prepare_attack team_enemies (Some 1%nat) skirmish = (Ok tt, s') /\
    move_area s' = [] /\ curr_sel s' = Some (2, 2).
Proof.
  split; [apply open_map_tiled|]. split; [exact skirmish_consistent|].
  destruct (prepare_attack_targets team_enemies skirmish (Some 1%nat) 1%nat
              (soldier (2, 2) 1%nat) (open_map_tiled 5 5 _ _) skirmish_consistent
              (or_introl eq_refl) ltac:(vm_compute; reflexivity))
    as (s' & Hrun & _ & Hmv & Hc & _).
  exists s'. auto.
Defined.

Lemma mouse_button_keeps_zoom_witness :
  1 <= 5 <= 5 /\
  handle_mousebuttondown spec_shortest_path spec_area team_is_mine
    (mkMouseButtonDown 3 true None) 5 demo_selected = (Ok 5, unselected demo_selected).
Proof.
  assert (Hz : 1 <= 5 <= 5) by lia.
  split; [exact Hz|].
  destruct (mouse_button_keeps_zoom spec_shortest_path spec_area team_is_mine
              (mkMouseButtonDown 3 true None) 5 demo_selected Hz) as (_ & _ & H3 & _).
  exact (H3 eq_refl).
Defined.

Lemma init_consistent_witness :
  NoDup (map fst demo_roster) /\ consistent demo.
Proof.
  assert (Hnd : NoDup (map fst demo_roster)).
  { apply NoDup_ListNoDup. repeat constructor; simpl; intuition discriminate. }
  split; [exact Hnd|]. exact (init_consistent 5 5 [open_layer 5 5] demo_roster 1%nat Hnd).
Defined.

Lemma init_topmost_tile_wins_witness :
  init_terrains [[mkCell 0 0 (Some (mkTile ["none"%string]))];
                 [mkCell 0 0 (Some (mkTile ["any"%string]))]] [] !! (0, 0) =
  Some (mkTerrain ["any"%string] None).
Proof.
  apply (init_topmost_tile_wins [] [[mkCell 0 0 (Some (mkTile ["none"%string]))]]
           [mkCell 0 0 (Some (mkTile ["any"%string]))] []
           (mkCell 0 0 (Some (mkTile ["any"%string]))) (mkTile ["any"%string])).
  - apply NoDup_singleton.
  - left.
  - reflexivity.
  - intros l cell' Hl. now apply elem_of_nil in Hl.
Defined.

Lemma register_adds_once_witness :
  tidy ∅ /\ tidy (Room_register 2 7%nat ∅) /\
  Room_register 2 7%nat (Room_register 2 7%nat ∅) = Room_register 2 7%nat ∅.
Proof.
  assert (Ht : tidy ∅) by (intros e l H; rewrite lookup_empty in H; discriminate).
  destruct (register_adds_once 2 7%nat ∅) as (_ & _ & Hidem & Htidy).
  split; [exact Ht|]. split; [exact (Htidy Ht)|exact Hidem].
Defined.

Lemma unregister_removes_witness :
  tidy {[2 := [7%nat; 8%nat]]} /\
  (Room_unregister 2 (Some 7%nat) ∅).1 = Raise KeyError /\
  Room_unregister 2 (Some 7%nat) {[2 := [7%nat; 8%nat]]} = (Ok tt, {[2 := [8%nat]]}) /\
  (Room_unregister 2147483648 (Some 7%nat) {[2147483648 := [7%nat]]}).1
  = Raise OverflowError /\
  (forall cb l, Some 7%nat = Some cb ->
     (Room_unregister 2 (Some 7%nat) {[2 := [7%nat; 8%nat]]}).2 !! 2 = Some l -> cb ∉ l).
Proof.
  assert (Ht : tidy {[2 := [7%nat; 8%nat]]}).
  { intros e l H. apply lookup_singleton_Some in H as [_ <-].
    apply NoDup_cons. split; [|apply NoDup_singleton].
    rewrite list_elem_of_singleton. discriminate. }
  split; [exact Ht|].
  split; [exact (proj2 (proj1 (unregister_removes 2 (Some 7%nat) ∅)) (lookup_empty 2))|].
  split; [vm_compute; reflexivity|].
  destruct (unregister_removes 2147483648 (Some 7%nat) {[2147483648 := [7%nat]]})
    as (_ & _ & _ & Hover & _).
  destruct (unregister_removes 2 (Some 7%nat) {[2 := [7%nat; 8%nat]]})
    as (_ & _ & _ & _ & _ & Hgone).
  split.
  - apply Hover. split; [rewrite lookup_singleton_eq; eauto|lia].
  - exact (proj2 (Hgone Ht)).
Defined.

Lemma register_unregister_witness :
  ({[2 := [8%nat]]} : gmap Z (list nat)) !! 2 = Some [8%nat] /\
  (7%nat ∉ [8%nat]) /\
  ({[2 := [8%nat]]} : gmap Z (list nat)) !! 3 = None /\
  Room_register_call 2 7%nat {[2 := [8%nat]]} = (Ok tt, {[2 := [8%nat; 7%nat]]}) /\
  Room_unregister 2 (Some 7%nat) (Room_register_call 2 7%nat {[2 := [8%nat]]}).2
  = (Ok tt, {[2 := [8%nat]]}) /\
  Room_unregister 3 (Some 7%nat) (Room_register_call 3 7%nat {[2 := [8%nat]]}).2
  = (Ok tt, <[3 := []]> {[2 := [8%nat]]}) /\
  Room_unregister 2147483648 (Some 7%nat)
    (Room_register_call 2147483648 7%nat {[2 := [8%nat]]}).2
  = (Raise OverflowError, <[2147483648 := []]> {[2 := [8%nat]]}).
Proof.
  assert (H2 : ({[2 := [8%nat]]} : gmap Z (list nat)) !! 2 = Some [8%nat])
    by apply lookup_singleton_eq.
  assert (Hout : 7%nat ∉ [8%nat]) by (rewrite list_elem_of_singleton; discriminate).
  assert (H3 : ({[2 := [8%nat]]} : gmap Z (list nat)) !! 3 = None)
    by (apply lookup_singleton_ne; discriminate).
  assert (Hbig : ({[2 := [8%nat]]} : gmap Z (list nat)) !! 2147483648 = None)
    by (apply lookup_singleton_ne; discriminate).
  destruct (register_unregister 2 7%nat {[2 := [8%nat]]}) as (_ & Hknown & _).
  destruct (register_unregister 3 7%nat {[2 := [8%nat]]}) as (_ & _ & Hnew).
  destruct (register_unregister 2147483648 7%nat {[2 := [8%nat]]}) as (_ & _ & Hover).
  split; [exact H2|]. split; [exact Hout|]. split; [exact H3|].
  split; [vm_compute; reflexivity|]. split; [|split].
  - exact (proj1 (Hknown [8%nat] H2 Hout)).
  - exact (proj1 (proj2 (Hnew H3))).
  - exact (proj1 (proj2 (Hover Hbig))).
Defined.

Lemma kill_unit_clears_grid_witness :
  consistent demo /\ units demo !! 2%nat = Some (soldier (0, 0) 2%nat) /\
  exists s', kill_unit 2%nat demo = (Ok tt, s') /\
             forall c, unit_at s' (Some c) ≠ Some 2%nat.
Proof.
  assert (HU : units demo !! 2%nat = Some (soldier (0, 0) 2%nat))
    by (vm_compute; reflexivity).
  split; [exact demo_consistent|]. split; [exact HU|].
  destruct (proj2 (kill_unit_clears_grid demo 2%nat (soldier (0, 0) 2%nat)
                     demo_consistent HU)
              (mkTerrain ["any"%string] (Some 2%nat)) ltac:(vm_compute; reflexivity))
    as (s' & Hrun & _ & _ & Hgone & _).
  exists s'. auto.
Defined.

Lemma area_symmetric_witness :
  check_coord demo (2, 2) = true /\ check_coord demo (2, 3) = true /\
  ((2, 3) ∈ area demo (2, 2) 1 1 <-> (2, 2) ∈ area demo (2, 3) 1 1).
Proof.
  split; [reflexivity|]. split; [reflexivity|].
  exact (area_symmetric demo (2, 2) (2, 3) 1 1 eq_refl eq_refl).
Defined.

Lemma attack_area_has_no_duplicates_witness :
  curr_sel demo_selected = Some (2, 2) /\
  exists s', move_attack_area demo_selected = (Ok tt, s') /\ NoDup (attack_area s').
Proof.
  assert (Hc : curr_sel demo_selected = Some (2, 2)) by (vm_compute; reflexivity).
  split; [exact Hc|].
  apply (attack_area_has_no_duplicates demo_selected (2, 2)
           (mkTerrain ["any"%string] (Some 1%nat)) 1%nat (soldier (2, 2) 1%nat) Hc);
    vm_compute; reflexivity.
Defined.

Lemma select_second_unit_witness :
  curr_sel demo_selected = Some (2, 2) /\
  unit_at demo_selected (Some (0, 0)) = Some 2%nat /\
  fst (select spec_shortest_path spec_area team_is_mine (0, 0) demo_selected) = Ok tt.
Proof.
  assert (Hc : curr_sel demo_selected = Some (2, 2)) by (vm_compute; reflexivity).
  split; [exact Hc|]. split; [vm_compute; reflexivity|].
  rewrite (select_second_unit spec_shortest_path spec_area team_is_mine demo_selected
             (2, 2) (0, 0) (mkTerrain ["any"%string] (Some 1%nat))
             (mkTerrain ["any"%string] (Some 2%nat)) 1%nat 2%nat
             (soldier (2, 2) 1%nat) (soldier (0, 0) 2%nat) Hc);
    try (vm_compute; reflexivity).
  left. discriminate.
Defined.
